(** * coffee-store-server: the route handlers of [index.js] over a model of
      the document store

    [index.js] is an Express application whose handlers forward each request
    to one call of the MongoDB driver.  The handlers are embedded below as
    functions in a state-and-rejection monad; the two collections, the
    driver's operations they call ([find], [findOne], [insertOne],
    [deleteOne], [updateOne] with [$set] and [upsert]) and the [ObjectId]
    constructor are modelled next to them, as the driver documents them. *)

From Stdlib Require Import Ascii String Qcanon.
From stdpp Require Import base decidable option numbers list strings gmap fin_maps.

Open Scope string_scope.
Open Scope list_scope.

(** ** ObjectId: twelve bytes, held as their twenty-four hexadecimal digits *)

Inductive hexdigit :=
  | H0 | H1 | H2 | H3 | H4 | H5 | H6 | H7
  | H8 | H9 | HA | HB | HC | HD | HE | HF.

#[global] Instance hexdigit_eq_dec : EqDecision hexdigit.
Proof. solve_decision. Defined.

Record ObjectId := mkObjectId {
  oid_digits : list hexdigit;
  oid_len : Is_true (Nat.eqb (length oid_digits) 24)
}.

(** The character class [[0-9a-fA-F]] of the driver's [checkForHexRegExp]. *)
Definition hexdigit_of_ascii (c : ascii) : option hexdigit :=
  if decide (c = "0"%char) then Some H0 else
  if decide (c = "1"%char) then Some H1 else
  if decide (c = "2"%char) then Some H2 else
  if decide (c = "3"%char) then Some H3 else
  if decide (c = "4"%char) then Some H4 else
  if decide (c = "5"%char) then Some H5 else
  if decide (c = "6"%char) then Some H6 else
  if decide (c = "7"%char) then Some H7 else
  if decide (c = "8"%char) then Some H8 else
  if decide (c = "9"%char) then Some H9 else
  if decide (c = "a"%char) then Some HA else
  if decide (c = "b"%char) then Some HB else
  if decide (c = "c"%char) then Some HC else
  if decide (c = "d"%char) then Some HD else
  if decide (c = "e"%char) then Some HE else
  if decide (c = "f"%char) then Some HF else
  if decide (c = "A"%char) then Some HA else
  if decide (c = "B"%char) then Some HB else
  if decide (c = "C"%char) then Some HC else
  if decide (c = "D"%char) then Some HD else
  if decide (c = "E"%char) then Some HE else
  if decide (c = "F"%char) then Some HF else None.

(** [toHexString] prints lower-case digits. *)
Definition ascii_of_hexdigit (h : hexdigit) : ascii :=
  match h with
  | H0 => "0" | H1 => "1" | H2 => "2" | H3 => "3"
  | H4 => "4" | H5 => "5" | H6 => "6" | H7 => "7"
  | H8 => "8" | H9 => "9" | HA => "a" | HB => "b"
  | HC => "c" | HD => "d" | HE => "e" | HF => "f"
  end%char.

Fixpoint parse_hex (s : string) : option (list hexdigit) :=
  match s with
  | EmptyString => Some []
  | String c s' =>
      match hexdigit_of_ascii c, parse_hex s' with
      | Some h, Some hs => Some (h :: hs)
      | _, _ => None
      end
  end.

Fixpoint print_hex (hs : list hexdigit) : string :=
  match hs with
  | [] => EmptyString
  | h :: hs' => String (ascii_of_hexdigit h) (print_hex hs')
  end.

(** A proof of [Is_true b] when [b] holds, found by evaluation. *)
Definition holds (b : bool) : option (Is_true b) :=
  match b with
  | true => Some I
  | false => None
  end.

(** [new ObjectId(id)] for a string [id], as in bson 6: twenty-four
    hexadecimal characters give the identifier, any other string makes the
    constructor throw ([None] here; [new_ObjectId] below turns it into the
    thrown [BSONError]). *)
Definition ObjectId_of_string (id : string) : option ObjectId :=
  match parse_hex id with
  | Some hs =>
      match holds (Nat.eqb (length hs) 24) with
      | Some ok => Some (mkObjectId hs ok)
      | None => None
      end
  | None => None
  end.

(** [oid.toHexString()], which is also how an ObjectId appears in a JSON
    response. *)
Definition toHexString (o : ObjectId) : string := print_hex (oid_digits o).

Lemma ObjectId_eq (a b : ObjectId) : oid_digits a = oid_digits b → a = b.
Proof.
  destruct a as [da pa], b as [db pb]; simpl; intros ->.
  f_equal. apply proof_irrel.
Qed.

#[global] Instance ObjectId_eq_dec : EqDecision ObjectId.
Proof.
  intros a b. destruct (decide (oid_digits a = oid_digits b)) as [E | N].
  - left. by apply ObjectId_eq.
  - right. by intros ->.
Defined.

(** ** Values and documents *)

(** The values of a parsed JSON body and of a stored document.  A JSON body
    holds no [VOid]; the store adds them as [_id].  The handlers never
    compute on numbers, which are kept as exact rationals. *)
#[warnings="-register-all"]
Inductive value :=
  | VNull
  | VBool (b : bool)
  | VNum (q : Qc)
  | VStr (s : string)
  | VOid (o : ObjectId)
  | VArr (l : list value)
  | VObj (fields : list (string * value)).

Fixpoint value_eqb (v w : value) : bool :=
  match v, w with
  | VNull, VNull => true
  | VBool a, VBool b => bool_decide (a = b)
  | VNum a, VNum b => bool_decide (a = b)
  | VStr a, VStr b => bool_decide (a = b)
  | VOid a, VOid b => bool_decide (a = b)
  | VArr l, VArr l' =>
      (fix go (l l' : list value) : bool :=
         match l, l' with
         | [], [] => true
         | x :: t, y :: t' => value_eqb x y && go t t'
         | _, _ => false
         end) l l'
  | VObj l, VObj l' =>
      (fix go (l l' : list (string * value)) : bool :=
         match l, l' with
         | [], [] => true
         | (k, x) :: t, (k', y) :: t' =>
             bool_decide (k = k') && value_eqb x y && go t t'
         | _, _ => false
         end) l l'
  | _, _ => false
  end.

Fixpoint value_eqb_eq (v w : value) {struct v} : value_eqb v w = true ↔ v = w.
Proof.
  destruct v, w; simpl; try (split; [discriminate | congruence]); try done.
  1-4: rewrite bool_decide_eq_true; split; congruence.
  - revert l0. induction l as [|x t IHt]; intros [|y t'];
      try (split; [discriminate | congruence]); try done.
    rewrite andb_true_iff, value_eqb_eq. specialize (IHt t').
    split.
    + intros [-> Ht]. apply IHt in Ht. congruence.
    + intros [= -> ->]. split; [done|]. by apply IHt.
  - revert fields0. induction fields as [|[k x] t IHt]; intros [|[k' y] t'];
      try (split; [discriminate | congruence]); try done.
    rewrite !andb_true_iff, bool_decide_eq_true, value_eqb_eq.
    specialize (IHt t'). split.
    + intros [[-> ->] Ht]. apply IHt in Ht. congruence.
    + intros [= -> -> ->]. split; [done|]. by apply IHt.
Qed.

#[global] Instance value_eq_dec : EqDecision value.
Proof.
  intros v w. destruct (value_eqb v w) eqn:E.
  - left. by apply value_eqb_eq.
  - right. intros H. apply value_eqb_eq in H. congruence.
Defined.

Abbreviation doc := (gmap string value).

(** ** The store, the console and the outcome of an asynchronous call *)

(** [client.db("coffeeDB").collection("coffee")] and [.collection("user")]. *)
Inductive coll_name := coffee | user.

#[global] Instance coll_name_eq_dec : EqDecision coll_name.
Proof. solve_decision. Defined.

(** The operations a handler can issue on a collection. *)
Inductive db_op :=
  | DbFind (c : coll_name)
  | DbFindOne (c : coll_name)
  | DbInsertOne (c : coll_name)
  | DbDeleteOne (c : coll_name)
  | DbUpdateOne (c : coll_name).

Definition op_coll (op : db_op) : coll_name :=
  match op with
  | DbFind c | DbFindOne c | DbInsertOne c | DbDeleteOne c | DbUpdateOne c => c
  end.

Inductive error :=
  | BSONError                         (* thrown by [new ObjectId(id)] *)
  | MongoNetworkError                 (* the store cannot be reached *)
  | MongoServerError (code : N).      (* the store refused the operation *)

Inductive log_entry :=
  | LogUri
  | LogDoc (d : doc)
  | LogPinged
  | LogPort
  | Dir (e : error).

Inductive outcome (A : Type) :=
  | Fulfilled (a : A)
  | Rejected (e : error).
Arguments Fulfilled {A} a.
Arguments Rejected {A} e.

(** What a handler can see and change: the documents of the two collections
    in their natural order, whether the store answers, the operations issued
    so far (latest last) and the console. *)
Record state := mkState {
  coffeeCollection : list doc;
  userCollection : list doc;
  db_up : bool;
  oplog : list db_op;
  console : list log_entry
}.

Definition collection (c : coll_name) (st : state) : list doc :=
  match c with
  | coffee => coffeeCollection st
  | user => userCollection st
  end.

Definition set_collection (c : coll_name) (l : list doc) (st : state) : state :=
  match c with
  | coffee => mkState l (userCollection st) (db_up st) (oplog st) (console st)
  | user => mkState (coffeeCollection st) l (db_up st) (oplog st) (console st)
  end.

Definition issue (op : db_op) (st : state) : state :=
  mkState (coffeeCollection st) (userCollection st) (db_up st)
          (oplog st ++ [op]) (console st).

(** An [async] handler body: it runs on the state and is fulfilled with a
    value or rejected with the error thrown; no handler has a [try]. *)
Definition M (A : Type) : Type := state → outcome A * state.

#[global] Instance M_ret : MRet M := λ A a st, (Fulfilled a, st).
#[global] Instance M_bind : MBind M := λ A B f m st,
  match m st with
  | (Fulfilled a, st') => f a st'
  | (Rejected e, st') => (Rejected e, st')
  end.

Definition throw {A} (e : error) : M A := λ st, (Rejected e, st).

Definition console_log (d : doc) : M unit := λ st,
  (Fulfilled (),
   mkState (coffeeCollection st) (userCollection st) (db_up st) (oplog st)
           (console st ++ [LogDoc d])).

(** One awaited call of the driver on collection [op_coll op]: the operation
    is issued, and either the store answers with [f] applied to the
    collection, or the promise is rejected and nothing is stored. *)
Definition db_call {A} (op : db_op)
    (f : list doc → outcome A * list doc) : M A := λ st,
  let st1 := issue op st in
  if db_up st1 then
    let '(r, l') := f (collection (op_coll op) st1) in
    (r, set_collection (op_coll op) l' st1)
  else (Rejected MongoNetworkError, st1).

(** ** The driver's operations, on the documents of one collection *)

(** The two query shapes of [index.js]: [find()] and [{ _id: oid }]. *)
Inductive query :=
  | QAll
  | QId (oid : ObjectId).

Definition matches (q : query) (d : doc) : Prop :=
  match q with
  | QAll => True
  | QId oid => d !! "_id" = Some (VOid oid)
  end.

#[global] Instance matches_dec q d : Decision (matches q d).
Proof. destruct q; simpl; apply _. Defined.

Definition find_docs (q : query) (l : list doc) : list doc :=
  filter (matches q) l.

Definition findOne_docs (q : query) (l : list doc) : option doc :=
  snd <$> list_find (matches q) l.

(** The [_id] an inserted document gets: its own, or the generated [pk]
    when it has none ([doc._id == null] in the driver). *)
Definition doc_id (pk : ObjectId) (d : doc) : value :=
  match d !! "_id" with
  | None | Some VNull => VOid pk
  | Some v => v
  end.

Definition has_id (v : value) (l : list doc) : Prop :=
  Exists (λ e : doc, e !! "_id" = Some v) l.

Definition is_array (v : value) : bool :=
  match v with VArr _ => true | _ => false end.

(** [insertOne(d)]: the store refuses an array as [_id] (code 53) and an
    [_id] already taken (code 11000); the acknowledgment carries
    [insertedId]. *)
Definition insertOne_docs (pk : ObjectId) (d : doc) (l : list doc)
    : outcome value * list doc :=
  let v := doc_id pk d in
  if is_array v then (Rejected (MongoServerError 53%N), l)
  else if decide (has_id v l) then (Rejected (MongoServerError 11000%N), l)
  else (Fulfilled v, l ++ [<["_id" := v]> d]).

(** [deleteOne(q)]: the first match goes; the result is [deletedCount]. *)
Definition deleteOne_docs (q : query) (l : list doc) : outcome nat * list doc :=
  match list_find (matches q) l with
  | Some (i, _) => (Fulfilled 1, delete i l)
  | None => (Fulfilled 0, l)
  end.

(** [$set]: each listed field is written, present before or not. *)
Definition apply_set (upd : list (string * value)) (d : doc) : doc :=
  foldl (λ acc kv, <[kv.1 := kv.2]> acc) d upd.
Arguments apply_set : simpl never.

Record UpdateResult := mkUpdateResult {
  matchedCount : nat;
  modifiedCount : nat;
  upsertedCount : nat;
  upsertedId : option ObjectId
}.

(** [updateOne({ _id: oid }, { $set: upd }, { upsert })]: the first match is
    updated in place; without a match and with [upsert] a document made of
    the filter's [_id] and the [$set] fields is inserted. *)
Definition updateOne_docs (oid : ObjectId) (upd : list (string * value))
    (upsert : bool) (l : list doc) : outcome UpdateResult * list doc :=
  match list_find (matches (QId oid)) l with
  | Some (i, d) =>
      let d' := apply_set upd d in
      (Fulfilled (mkUpdateResult 1 (if decide (d' = d) then 0 else 1) 0 None),
       <[i := d']> l)
  | None =>
      if upsert then
        (Fulfilled (mkUpdateResult 0 0 1 (Some oid)),
         l ++ [apply_set upd {["_id" := VOid oid]}])
      else (Fulfilled (mkUpdateResult 0 0 0 None), l)
  end.

Definition find (c : coll_name) (q : query) : M (list doc) :=
  db_call (DbFind c) (λ l, (Fulfilled (find_docs q l), l)).

Definition findOne (c : coll_name) (q : query) : M (option doc) :=
  db_call (DbFindOne c) (λ l, (Fulfilled (findOne_docs q l), l)).

Definition insertOne (c : coll_name) (pk : ObjectId) (d : doc) : M value :=
  db_call (DbInsertOne c) (insertOne_docs pk d).

Definition deleteOne (c : coll_name) (q : query) : M nat :=
  db_call (DbDeleteOne c) (deleteOne_docs q).

Definition updateOne (c : coll_name) (oid : ObjectId)
    (upd : list (string * value)) (upsert : bool) : M UpdateResult :=
  db_call (DbUpdateOne c) (updateOne_docs oid upd upsert).

(** [new ObjectId(id)] inside a handler. *)
Definition new_ObjectId (id : string) : M ObjectId :=
  match ObjectId_of_string id with
  | Some oid => mret oid
  | None => throw BSONError
  end.

(** ** The route handlers of [index.js] *)

Inductive payload :=
  | Text (s : string)
  | Docs (l : list doc)
  | Doc (d : option doc)                (* [null] is sent as an empty body *)
  | InsertOneResult (insertedId : value)
  | DeleteResult (deletedCount : nat)
  | UpdateAck (r : UpdateResult)
  | NotFound.

Record response := mkResponse {
  status : nat;
  body : payload
}.

(** [res.send(x)]: status 200 unless set otherwise, which no handler does. *)
Definition res_send (x : payload) : M response := mret (mkResponse 200 x).

(** A property read [o.k] on a parsed body: [None] is [undefined]. *)
Definition prop (o : doc) (k : string) : option value := o !! k.

(** How the driver serialises a field of the update document: [undefined]
    is written as [null] (the client is created without [ignoreUndefined]). *)
Definition bson (v : option value) : value := default VNull v.

(** [app.get("/addCoffee", ...)] *)
Definition get_addCoffee : M response :=
  result ← find coffee QAll;
  res_send (Docs result).

(** [app.get("/addCoffee/:id", ...)] *)
Definition get_addCoffee_id (id : string) : M response :=
  oid ← new_ObjectId id;
  let query := QId oid in
  result ← findOne coffee query;
  res_send (Doc result).

(** [app.post("/addCoffee", ...)]; [pk] is the identifier the driver would
    generate for this insert. *)
Definition post_addCoffee (pk : ObjectId) (addCoffee : doc) : M response :=
  console_log addCoffee;;
  result ← insertOne coffee pk addCoffee;
  res_send (InsertOneResult result).

(** [app.delete("/addCoffee/:id", ...)] *)
Definition delete_addCoffee_id (id : string) : M response :=
  oid ← new_ObjectId id;
  let query := QId oid in
  result ← deleteOne coffee query;
  res_send (DeleteResult result).

(** The six fields the update handler names. *)
Definition coffee_fields : list string :=
  ["name"; "supplier"; "taste"; "category"; "details"; "photo"].

(** The object [coffee] of the update handler, as the list under its [$set]. *)
Definition coffee_set (updateCoffee : doc) : list (string * value) :=
  [ ("name", bson (prop updateCoffee "name"));
    ("supplier", bson (prop updateCoffee "supplier"));
    ("taste", bson (prop updateCoffee "taste"));
    ("category", bson (prop updateCoffee "category"));
    ("details", bson (prop updateCoffee "details"));
    ("photo", bson (prop updateCoffee "photo")) ].

(** [app.put("/addCoffee/:id", ...)] *)
Definition put_addCoffee_id (id : string) (updateCoffee : doc) : M response :=
  oid ← new_ObjectId id;
  let options := true in
  result ← updateOne coffee oid (coffee_set updateCoffee) options;
  res_send (UpdateAck result).

(** [app.post("/users", ...)] *)
Definition post_users (pk : ObjectId) (addUser : doc) : M response :=
  console_log addUser;;
  result ← insertOne user pk addUser;
  res_send (InsertOneResult result).

(** [app.get("/users", ...)] *)
Definition get_users : M response :=
  result ← find user QAll;
  res_send (Docs result).

(** [app.delete("/users/:id", ...)] *)
Definition delete_users_id (id : string) : M response :=
  oid ← new_ObjectId id;
  let query := QId oid in
  result ← deleteOne user query;
  res_send (DeleteResult result).

(** [app.get("/", ...)] *)
Definition get_root : M response :=
  res_send (Text "coffee server is running").

(** ** Start-up: [run], its [catch], the root route and [listen] *)

Inductive route :=
  | GET_addCoffee
  | GET_addCoffee_id
  | POST_addCoffee
  | DELETE_addCoffee_id
  | PUT_addCoffee_id
  | POST_users
  | GET_users
  | DELETE_users_id
  | GET_root.

#[global] Instance route_eq_dec : EqDecision route.
Proof. solve_decision. Defined.

(** The process after start-up: the routes registered on [app], whether it
    listens, its console, and the rejections nothing handled. *)
Record process := mkProcess {
  routes : list route;
  listening : bool;
  p_console : list log_entry;
  unhandled : list error
}.

Definition boot : process := mkProcess [] false [] [].

Definition p_log (e : log_entry) (p : process) : process :=
  mkProcess (routes p) (listening p) (p_console p ++ [e]) (unhandled p).

Definition app_route (r : route) (p : process) : process :=
  mkProcess (routes p ++ [r]) (listening p) (p_console p) (unhandled p).

Definition app_listen (p : process) : process :=
  p_log LogPort (mkProcess (routes p) true (p_console p) (unhandled p)).

(** [run]: the [try] has a [finally] and no [catch], so a rejected
    [client.connect()] or ping rejects [run] where it happens.  [connect]
    and [ping] are the outcomes of the two awaited calls. *)
Definition run (connect ping : outcome unit) (p : process)
    : outcome unit * process :=
  match connect with
  | Rejected e => (Rejected e, p)
  | Fulfilled _ =>
      let p :=
        foldl (λ acc r, app_route r acc) p
          [GET_addCoffee; GET_addCoffee_id; POST_addCoffee;
           DELETE_addCoffee_id; PUT_addCoffee_id;
           POST_users; GET_users; DELETE_users_id] in
      match ping with
      | Rejected e => (Rejected e, p)
      | Fulfilled _ => (Fulfilled (), p_log LogPinged p)
      end
  end.

(** A promise settles: its rejection goes to the handler attached with
    [.catch], or is unhandled when there is none. *)
Definition settle (r : outcome unit)
    (on_rejected : option (error → process → process)) (p : process)
    : process :=
  match r, on_rejected with
  | Fulfilled _, _ => p
  | Rejected e, Some h => h e p
  | Rejected e, None =>
      mkProcess (routes p) (listening p) (p_console p) (unhandled p ++ [e])
  end.

Definition console_dir (e : error) (p : process) : process := p_log (Dir e) p.

(** The script top to bottom.  [run()] is called first and suspends at
    [await client.connect()]; the root route and [listen] follow in the same
    turn; [run] resumes once the connection attempt has settled, with
    [.catch(console.dir)] attached to its promise. *)
Definition main (connect ping : outcome unit) : process :=
  let p := p_log LogUri boot in
  let p := app_route GET_root p in
  let p := app_listen p in
  let '(r, p) := run connect ping p in
  settle r (Some console_dir) p.

(** ** Dispatch *)

Inductive request :=
  | Get_addCoffee
  | Get_addCoffee_id (id : string)
  | Post_addCoffee (body : doc)
  | Delete_addCoffee_id (id : string)
  | Put_addCoffee_id (id : string) (body : doc)
  | Post_users (body : doc)
  | Get_users
  | Delete_users_id (id : string)
  | Get_root.

Definition route_of (req : request) : route :=
  match req with
  | Get_addCoffee => GET_addCoffee
  | Get_addCoffee_id _ => GET_addCoffee_id
  | Post_addCoffee _ => POST_addCoffee
  | Delete_addCoffee_id _ => DELETE_addCoffee_id
  | Put_addCoffee_id _ _ => PUT_addCoffee_id
  | Post_users _ => POST_users
  | Get_users => GET_users
  | Delete_users_id _ => DELETE_users_id
  | Get_root => GET_root
  end.

Definition handler (pk : ObjectId) (req : request) : M response :=
  match req with
  | Get_addCoffee => get_addCoffee
  | Get_addCoffee_id id => get_addCoffee_id id
  | Post_addCoffee b => post_addCoffee pk b
  | Delete_addCoffee_id id => delete_addCoffee_id id
  | Put_addCoffee_id id b => put_addCoffee_id id b
  | Post_users b => post_users pk b
  | Get_users => get_users
  | Delete_users_id id => delete_users_id id
  | Get_root => get_root
  end.

(** Express calls the handler of a registered route and answers 404 for a
    route that was never registered. *)
Definition serve (p : process) (pk : ObjectId) (req : request) : M response :=
  if decide (route_of req ∈ routes p) then handler pk req
  else mret (mkResponse 404 NotFound).

(** Routes by the collection they work on. *)
Definition route_coll (r : route) : option coll_name :=
  match r with
  | GET_addCoffee | GET_addCoffee_id | POST_addCoffee
  | DELETE_addCoffee_id | PUT_addCoffee_id => Some coffee
  | POST_users | GET_users | DELETE_users_id => Some user
  | GET_root => None
  end.

(** The store keeps [_id] present and unique in each collection. *)
Definition coll_wf (l : list doc) : Prop :=
  Forall (λ d : doc, is_Some (d !! "_id")) l ∧
  NoDup ((λ d : doc, d !! "_id") <$> l).

(** [only_on c m]: from any state, [m] issues operations on collection [c]
    only and leaves every other collection as it was. *)
Definition only_on {A} (c : coll_name) (m : M A) : Prop :=
  ∀ st, ∃ ops,
    oplog (m st).2 = oplog st ++ ops ∧
    Forall (λ op, op_coll op = c) ops ∧
    ∀ c', c' ≠ c → collection c' (m st).2 = collection c' st.

(** [keeps_wf m]: [m] takes a state whose two collections satisfy the
    store's invariant to such a state. *)
Definition keeps_wf {A} (m : M A) : Prop :=
  ∀ st, (∀ c, coll_wf (collection c st)) →
        ∀ c, coll_wf (collection c (m st).2).

(** ** A sample store *)

Definition oid_1 : ObjectId := mkObjectId (replicate 24 H1) I.
Definition oid_a : ObjectId := mkObjectId (replicate 24 HA) I.

Definition latte : doc :=
  list_to_map
    [ ("name", VStr "Latte"); ("supplier", VStr "Acme");
      ("taste", VStr "mild"); ("category", VStr "espresso-based");
      ("details", VStr "hot"); ("photo", VStr "url") ].

(** A body with two of the six fields and one field outside them. *)
Definition mocha_with_price : doc :=
  list_to_map
    [ ("name", VStr "Mocha"); ("taste", VStr "sweet");
      ("price", VNum (Qc_of_Z 3)) ].

Definition empty_store : state := mkState [] [] true [] [].

Definition one_coffee : state :=
  mkState [<["_id" := VOid oid_1]> latte] [] true [] [].

(** The same documents in both collections. *)
Definition one_each : state :=
  mkState [<["_id" := VOid oid_1]> latte] [<["_id" := VOid oid_1]> latte]
          true [] [].

(** The sample store while it does not answer. *)
Definition one_coffee_down : state :=
  mkState [<["_id" := VOid oid_1]> latte] [] false [] [].

(** The path parameter [req.params.id] of the routes that have one. *)
Definition path_id (req : request) : option string :=
  match req with
  | Get_addCoffee_id id | Delete_addCoffee_id id
  | Put_addCoffee_id id _ | Delete_users_id id => Some id
  | _ => None
  end.

(** The body [req.body] that the two POST handlers log. *)
Definition logged_body (req : request) : list log_entry :=
  match req with
  | Post_addCoffee b | Post_users b => [LogDoc b]
  | _ => []
  end.

(** The requests of the four GET routes. *)
Definition is_get (req : request) : bool :=
  match req with
  | Get_addCoffee | Get_addCoffee_id _ | Get_users | Get_root => true
  | _ => false
  end.

(** An awaited call that did not reject. *)
Definition fulfilled {A} (r : outcome A) : Prop :=
  match r with Fulfilled _ => True | Rejected _ => False end.

(** * Properties *)

(** ** Identifiers *)

Lemma hexdigit_roundtrip (h : hexdigit) :
  hexdigit_of_ascii (ascii_of_hexdigit h) = Some h.
Proof. by destruct h. Qed.

Lemma parse_print_hex (hs : list hexdigit) : parse_hex (print_hex hs) = Some hs.
Proof.
  induction hs as [|h hs IH]; simpl; [done|].
  by rewrite hexdigit_roundtrip, IH.
Qed.

Lemma holds_true (b : bool) (p : Is_true b) : holds b = Some p.
Proof. destruct b; [by destruct p | destruct p]. Qed.

Lemma ObjectId_of_toHexString (o : ObjectId) :
  ObjectId_of_string (toHexString o) = Some o.
Proof.
  unfold ObjectId_of_string, toHexString. rewrite parse_print_hex.
  by rewrite (holds_true _ (oid_len o)); destruct o.
Qed.

Lemma new_ObjectId_toHexString (o : ObjectId) (st : state) :
  new_ObjectId (toHexString o) st = (Fulfilled o, st).
Proof. unfold new_ObjectId. by rewrite ObjectId_of_toHexString. Qed.

(** The strings [ObjectId_of_string] accepts are those of the pattern
    [^[0-9a-fA-F]{24}$]. *)
Lemma parse_hex_is_Some (s : string) :
  is_Some (parse_hex s) ↔
  Forall (λ c, is_Some (hexdigit_of_ascii c)) (list_ascii_of_string s).
Proof.
  induction s as [|c s IH]; simpl.
  - split; [constructor | eauto].
  - rewrite Forall_cons, <- IH.
    destruct (hexdigit_of_ascii c), (parse_hex s); split;
      try (by intros [? [=]]); try (by intros [[? [=]] ?]);
      try (by intros [? [? [=]]]); eauto.
Qed.

Lemma parse_hex_length (s : string) hs :
  parse_hex s = Some hs → length hs = String.length s.
Proof.
  revert hs. induction s as [|c s IH]; simpl; intros hs.
  - by intros [= <-].
  - destruct (hexdigit_of_ascii c); [|done].
    destruct (parse_hex s) as [hs'|]; [|done].
    intros [= <-]. simpl. by rewrite (IH hs').
Qed.

Lemma ObjectId_of_string_is_Some (id : string) :
  is_Some (ObjectId_of_string id) ↔
  String.length id = 24 ∧
  Forall (λ c, is_Some (hexdigit_of_ascii c)) (list_ascii_of_string id).
Proof.
  rewrite <- parse_hex_is_Some. unfold ObjectId_of_string.
  destruct (parse_hex id) as [hs|] eqn:E.
  - rewrite <- (parse_hex_length _ _ E).
    destruct (holds (Nat.eqb (length hs) 24)) as [ok|] eqn:Hc.
    + pose proof (proj1 (Is_true_true _) ok) as Hlen%Nat.eqb_eq.
      split; eauto.
    + assert (Nat.eqb (length hs) 24 = false) as Hlen%Nat.eqb_neq
        by (by destruct (Nat.eqb (length hs) 24)).
      split; [by intros [? [=]] | by intros [? _]].
  - split; [by intros [? [=]] | by intros [_ [? [=]]]].
Qed.

(** ** Reading the monad *)

Lemma bind_fulfilled {A B} (m : M A) (f : A → M B) st a st' :
  m st = (Fulfilled a, st') → (m ≫= f) st = f a st'.
Proof. unfold mbind, M_bind. by intros ->. Qed.

Lemma bind_rejected {A B} (m : M A) (f : A → M B) st e st' :
  m st = (Rejected e, st') → (m ≫= f) st = (Rejected e, st').
Proof. unfold mbind, M_bind. by intros ->. Qed.

Lemma bind_inv {A B} (m : M A) (f : A → M B) st b st' :
  (m ≫= f) st = (Fulfilled b, st') →
  ∃ a st1, m st = (Fulfilled a, st1) ∧ f a st1 = (Fulfilled b, st').
Proof.
  unfold mbind, M_bind. destruct (m st) as [[a|e] st1]; [eauto | done].
Qed.

Lemma db_call_up {A} op (f : list doc → outcome A * list doc) st :
  db_up st = true →
  db_call op f st =
    ((f (collection (op_coll op) st)).1,
     set_collection (op_coll op) (f (collection (op_coll op) st)).2
       (issue op st)).
Proof.
  intros Hup. unfold db_call. simpl. rewrite Hup.
  replace (collection (op_coll op) (issue op st))
    with (collection (op_coll op) st) by (by destruct (op_coll op)).
  by destruct (f _).
Qed.

Lemma db_call_down {A} op (f : list doc → outcome A * list doc) st :
  db_up st = false →
  db_call op f st = (Rejected MongoNetworkError, issue op st).
Proof. intros Hup. unfold db_call. simpl. by rewrite Hup. Qed.

Lemma db_call_fulfilled {A} op (f : list doc → outcome A * list doc) st a st' :
  db_call op f st = (Fulfilled a, st') → db_up st = true.
Proof.
  destruct (db_up st) eqn:Hup; [done|]. by rewrite db_call_down.
Qed.

Lemma find_up c q st :
  db_up st = true →
  find c q st = (Fulfilled (find_docs q (collection c st)), issue (DbFind c) st).
Proof.
  intros Hup. unfold find. rewrite db_call_up by done. by destruct c, st.
Qed.

Lemma findOne_up c q st :
  db_up st = true →
  findOne c q st =
    (Fulfilled (findOne_docs q (collection c st)), issue (DbFindOne c) st).
Proof.
  intros Hup. unfold findOne. rewrite db_call_up by done. by destruct c, st.
Qed.

Lemma set_collection_same c st :
  set_collection c (collection c st) st = st.
Proof. by destruct c, st. Qed.

Lemma collection_set c l st : collection c (set_collection c l st) = l.
Proof. by destruct c. Qed.

Lemma collection_set_other c c' l st :
  c ≠ c' → collection c' (set_collection c l st) = collection c' st.
Proof. by destruct c, c'. Qed.

Lemma db_up_set c l st : db_up (set_collection c l st) = db_up st.
Proof. by destruct c. Qed.

(** ** Lookups after [findOne], [insertOne] and [$set] *)

Lemma findOne_docs_appended oid (l : list doc) (d : doc) :
  ¬ has_id (VOid oid) l → d !! "_id" = Some (VOid oid) →
  findOne_docs (QId oid) (l ++ [d]) = Some d.
Proof.
  intros Hfresh Hd. unfold findOne_docs.
  rewrite list_find_app_r.
  - simpl. by rewrite decide_True.
  - apply list_find_None. unfold has_id in Hfresh.
    by apply not_Exists_Forall in Hfresh; [|intros; apply _].
Qed.

Lemma apply_set_notin upd (d : doc) k :
  k ∉ upd.*1 → apply_set upd d !! k = d !! k.
Proof.
  unfold apply_set. revert d. induction upd as [|[k' v] upd IH]; intros d Hk.
  - done.
  - simpl. rewrite fmap_cons, not_elem_of_cons in Hk. destruct Hk as [Hne Hk].
    rewrite IH by done. by rewrite lookup_insert_ne.
Qed.

Lemma apply_set_in upd (d : doc) k v :
  NoDup upd.*1 → (k, v) ∈ upd → apply_set upd d !! k = Some v.
Proof.
  unfold apply_set. revert d. induction upd as [|[k' v'] upd IH]; intros d Hnd Hin.
  - by apply elem_of_nil in Hin.
  - rewrite fmap_cons in Hnd. apply NoDup_cons in Hnd as [Hk' Hnd].
    apply elem_of_cons in Hin as [[= -> ->] | Hin]; simpl.
    + fold (apply_set upd (<[k' := v']> d)).
      rewrite apply_set_notin by done. by rewrite lookup_insert_eq.
    + by apply IH.
Qed.

Lemma insertOne_docs_fulfilled pk (d : doc) (l l' : list doc) v :
  insertOne_docs pk d l = (Fulfilled v, l') →
  v = doc_id pk d ∧ ¬ has_id v l ∧ l' = l ++ [<["_id" := v]> d].
Proof.
  unfold insertOne_docs. destruct (is_array _); [done|].
  destruct (decide _) as [|Hfresh]; [done|]. by intros [= <- <-].
Qed.

Lemma insertOne_fulfilled c pk (d : doc) st v st' :
  insertOne c pk d st = (Fulfilled v, st') →
  db_up st = true ∧ v = doc_id pk d ∧ ¬ has_id v (collection c st) ∧
  st' = set_collection c (collection c st ++ [<["_id" := v]> d])
          (issue (DbInsertOne c) st).
Proof.
  unfold insertOne. intros H. pose proof (db_call_fulfilled _ _ _ _ _ H) as Hup.
  rewrite db_call_up in H by done. simpl in H.
  destruct (insertOne_docs pk d (collection c st)) as [r l'] eqn:E.
  simpl in H. injection H as -> <-.
  apply insertOne_docs_fulfilled in E as (-> & ? & ->). done.
Qed.

(** ** C1: insert, then read by the generated identifier *)

(** The insert is fulfilled with the generated identifier whenever the store
    answers, the body brings no [_id] of its own and the generated one is
    not taken. *)
Lemma post_addCoffee_generates (pk : ObjectId) (D : doc) (st : state) :
  db_up st = true →
  D !! "_id" = None →
  ¬ has_id (VOid pk) (coffeeCollection st) →
  post_addCoffee pk D st =
    (Fulfilled (mkResponse 200 (InsertOneResult (VOid pk))),
     set_collection coffee (coffeeCollection st ++ [<["_id" := VOid pk]> D])
       (issue (DbInsertOne coffee) (console_log D st).2)).
Proof.
  intros Hup HD Hfresh. unfold post_addCoffee, insertOne.
  unfold mbind, M_bind at 1. simpl. unfold mbind, M_bind.
  rewrite db_call_up by done. simpl.
  unfold insertOne_docs, doc_id. rewrite HD. simpl.
  by destruct (decide _).
Qed.

(** A body that brings its own [_id] keeps it: the acknowledgment then
    carries that value and no identifier is generated. *)
Lemma post_addCoffee_own_id (pk : ObjectId) (D : doc) (st : state) v :
  db_up st = true →
  D !! "_id" = Some v → v ≠ VNull → is_array v = false →
  ¬ has_id v (coffeeCollection st) →
  post_addCoffee pk D st =
    (Fulfilled (mkResponse 200 (InsertOneResult v)),
     set_collection coffee (coffeeCollection st ++ [D])
       (issue (DbInsertOne coffee) (console_log D st).2)).
Proof.
  intros Hup HD Hnull Harr Hfresh. unfold post_addCoffee, insertOne.
  unfold mbind, M_bind at 1. simpl. unfold mbind, M_bind.
  rewrite db_call_up by done. simpl.
  assert (doc_id pk D = v) as Hv
    by (unfold doc_id; rewrite HD; by destruct v).
  unfold insertOne_docs. rewrite Hv, Harr.
  destruct (decide _); [done|]. simpl. by rewrite insert_id by done.
Qed.

(** C1.  When POST /addCoffee with body [D] is fulfilled and its
    acknowledgment carries the identifier [pk] generated for that insert,
    GET /addCoffee/:id with the hexadecimal form of [pk] answers 200 with
    the document [D] plus the field [_id] holding [pk]; the read changes
    nothing but the list of issued operations. *)
Theorem post_addCoffee_then_get (pk : ObjectId) (D : doc) (st st' : state)
    (ack : response) :
  post_addCoffee pk D st = (Fulfilled ack, st') →
  body ack = InsertOneResult (VOid pk) →
  get_addCoffee_id (toHexString pk) st' =
    (Fulfilled (mkResponse 200 (Doc (Some (<["_id" := VOid pk]> D)))),
     issue (DbFindOne coffee) st').
Proof.
  intros Hpost Hack. unfold post_addCoffee in Hpost.
  apply bind_inv in Hpost as ([] & st1 & Hlog & Hpost).
  apply bind_inv in Hpost as (v & st2 & Hins & Hsend).
  injection Hsend as <- <-. simpl in Hack. injection Hack as ->.
  apply insertOne_fulfilled in Hins as (Hup & Hv & Hfresh & ->).
  injection Hlog as <-. simpl in *.
  unfold get_addCoffee_id.
  erewrite bind_fulfilled by apply new_ObjectId_toHexString.
  erewrite bind_fulfilled by (by apply findOne_up).
  simpl. rewrite findOne_docs_appended; [done..|].
  apply lookup_insert_eq.
Qed.

(** ** The update handler *)

Lemma coffee_set_keys (B : doc) : (coffee_set B).*1 = coffee_fields.
Proof. done. Qed.

Lemma coffee_fields_NoDup : NoDup coffee_fields.
Proof. apply (bool_decide_unpack _). by vm_compute. Qed.

Lemma coffee_set_elem (B : doc) k :
  k ∈ coffee_fields → (k, bson (prop B k)) ∈ coffee_set B.
Proof.
  unfold coffee_fields, coffee_set. rewrite !elem_of_cons, elem_of_nil.
  intros H. repeat (destruct H as [-> | H]; [set_solver|]). done.
Qed.

Lemma id_not_coffee_field : "_id" ∉ coffee_fields.
Proof. apply (bool_decide_unpack _). by vm_compute. Qed.

Lemma findOne_docs_updated oid upd (l : list doc) i (d : doc) :
  "_id" ∉ upd.*1 →
  list_find (matches (QId oid)) l = Some (i, d) →
  findOne_docs (QId oid) (<[i := apply_set upd d]> l) = Some (apply_set upd d).
Proof.
  intros Hid Hfind. unfold findOne_docs.
  apply list_find_Some in Hfind as (Hi & Hd & Hleast).
  assert (list_find (matches (QId oid)) (<[i := apply_set upd d]> l)
          = Some (i, apply_set upd d)) as ->; [|done].
  apply list_find_insert_Some. right; left. split_and!; try done.
  - by eapply lookup_lt_Some.
  - simpl in *. by rewrite apply_set_notin.
Qed.

Lemma list_find_None_fresh oid (l : list doc) :
  list_find (matches (QId oid)) l = None ↔ ¬ has_id (VOid oid) l.
Proof.
  rewrite list_find_None. unfold has_id. split.
  - intros HF HE. apply Exists_exists in HE as (d & Hd & Hm).
    rewrite Forall_forall in HF. by apply (HF d).
  - intros HE. apply Forall_forall. intros d Hd Hm. apply HE.
    apply Exists_exists. eauto.
Qed.

Lemma put_addCoffee_id_matched id oid (B : doc) st i (d : doc) :
  ObjectId_of_string id = Some oid → db_up st = true →
  list_find (matches (QId oid)) (coffeeCollection st) = Some (i, d) →
  put_addCoffee_id id B st =
    (Fulfilled (mkResponse 200 (UpdateAck
       (mkUpdateResult 1
          (if decide (apply_set (coffee_set B) d = d) then 0 else 1) 0 None))),
     set_collection coffee
       (<[i := apply_set (coffee_set B) d]> (coffeeCollection st))
       (issue (DbUpdateOne coffee) st)).
Proof.
  intros Hid Hup Hfind. unfold put_addCoffee_id, new_ObjectId. rewrite Hid.
  unfold updateOne. simpl. unfold mbind, M_bind at 1, mret, M_ret at 1.
  unfold mbind, M_bind. rewrite db_call_up by done. simpl.
  unfold updateOne_docs. by rewrite Hfind.
Qed.

Lemma put_addCoffee_id_upserted id oid (B : doc) st :
  ObjectId_of_string id = Some oid → db_up st = true →
  ¬ has_id (VOid oid) (coffeeCollection st) →
  put_addCoffee_id id B st =
    (Fulfilled (mkResponse 200 (UpdateAck (mkUpdateResult 0 0 1 (Some oid)))),
     set_collection coffee
       (coffeeCollection st ++ [apply_set (coffee_set B) {["_id" := VOid oid]}])
       (issue (DbUpdateOne coffee) st)).
Proof.
  intros Hid Hup Hfresh. apply list_find_None_fresh in Hfresh.
  unfold put_addCoffee_id, new_ObjectId. rewrite Hid.
  unfold updateOne. simpl. unfold mbind, M_bind at 1, mret, M_ret at 1.
  unfold mbind, M_bind. rewrite db_call_up by done. simpl.
  unfold updateOne_docs. by rewrite Hfresh.
Qed.

Lemma get_addCoffee_id_up id oid st :
  ObjectId_of_string id = Some oid → db_up st = true →
  get_addCoffee_id id st =
    (Fulfilled (mkResponse 200 (Doc (findOne_docs (QId oid) (coffeeCollection st)))),
     issue (DbFindOne coffee) st).
Proof.
  intros Hid Hup. unfold get_addCoffee_id, new_ObjectId. rewrite Hid.
  unfold mbind, M_bind at 1, mret, M_ret at 1.
  by erewrite bind_fulfilled by (by apply findOne_up).
Qed.

Lemma coffee_set_lookup (B d : doc) k :
  k ∈ coffee_fields → apply_set (coffee_set B) d !! k = Some (bson (prop B k)).
Proof.
  intros Hk. apply apply_set_in.
  - rewrite coffee_set_keys. apply coffee_fields_NoDup.
  - by apply coffee_set_elem.
Qed.

Lemma coffee_set_frame (B d : doc) k :
  k ∉ coffee_fields → apply_set (coffee_set B) d !! k = d !! k.
Proof. intros Hk. apply apply_set_notin. by rewrite coffee_set_keys. Qed.

Lemma coffee_set_ext (B B' : doc) :
  (∀ k, k ∈ coffee_fields → B' !! k = B !! k) → coffee_set B' = coffee_set B.
Proof.
  intros H. unfold coffee_set, prop.
  by rewrite !H by (unfold coffee_fields; set_solver).
Qed.

(** ** C2: PUT on an identifier the collection does not have *)

(** C2.  For a well-formed identifier that no coffee document carries and
    any body [B], PUT /addCoffee/:id is fulfilled, reports one upsert and
    appends one record [rec] to the coffee collection: [rec] has that
    identifier, each of the six named fields that [B] has is stored with
    [B]'s value (a field [B] lacks is stored as the serialised [undefined],
    null), and GET /addCoffee/:id then returns [rec]. *)
Theorem put_addCoffee_id_creates (id : string) (oid : ObjectId) (B : doc)
    (st : state) :
  ObjectId_of_string id = Some oid →
  ¬ has_id (VOid oid) (coffeeCollection st) →
  db_up st = true →
  ∃ ack st' rec,
    put_addCoffee_id id B st = (Fulfilled ack, st') ∧
    body ack = UpdateAck (mkUpdateResult 0 0 1 (Some oid)) ∧
    coffeeCollection st' = coffeeCollection st ++ [rec] ∧
    rec !! "_id" = Some (VOid oid) ∧
    (∀ k v, k ∈ coffee_fields → B !! k = Some v → rec !! k = Some v) ∧
    (∀ k, k ∈ coffee_fields → rec !! k = Some (bson (prop B k))) ∧
    get_addCoffee_id id st' =
      (Fulfilled (mkResponse 200 (Doc (Some rec))),
       issue (DbFindOne coffee) st').
Proof.
  intros Hid Hfresh Hup.
  eexists _, _, (apply_set (coffee_set B) {["_id" := VOid oid]}).
  split; [by apply put_addCoffee_id_upserted|].
  assert (apply_set (coffee_set B) {["_id" := VOid oid]} !! "_id"
          = Some (VOid oid)) as Hrec.
  { rewrite coffee_set_frame by apply id_not_coffee_field.
    apply lookup_singleton_eq. }
  split_and!; try done.
  - intros k v Hk HB. rewrite coffee_set_lookup by done.
    unfold prop. by rewrite HB.
  - intros k Hk. by apply coffee_set_lookup.
  - erewrite get_addCoffee_id_up by done. simpl.
    by rewrite findOne_docs_appended.
Qed.

(** ** C3: PUT on an existing record writes the six named fields only *)

(** C3.  When the coffee collection has a record [d] for the identifier,
    PUT /addCoffee/:id with body [B] is fulfilled and replaces [d] in place
    by a record [d'] that agrees with [d] on every field outside the six
    named ones, its [_id] included; the other coffee records and the user
    collection are as before; and what is stored depends on the six named
    fields of [B] only: a body that agrees with [B] on those six leaves the
    same state and answer, whatever else it holds. *)
Theorem put_addCoffee_id_frame (id : string) (oid : ObjectId) (B d : doc)
    (st : state) :
  ObjectId_of_string id = Some oid →
  findOne_docs (QId oid) (coffeeCollection st) = Some d →
  db_up st = true →
  ∃ ack st' i d',
    put_addCoffee_id id B st = (Fulfilled ack, st') ∧
    coffeeCollection st !! i = Some d ∧
    coffeeCollection st' = <[i := d']> (coffeeCollection st) ∧
    userCollection st' = userCollection st ∧
    d' !! "_id" = Some (VOid oid) ∧
    (∀ k, k ∉ coffee_fields → d' !! k = d !! k) ∧
    (∀ B' : doc, (∀ k, k ∈ coffee_fields → B' !! k = B !! k) →
       put_addCoffee_id id B' st = put_addCoffee_id id B st).
Proof.
  intros Hid Hfind Hup. unfold findOne_docs in Hfind.
  destruct (list_find _ _) as [[i d0]|] eqn:E; simplify_eq/=.
  pose proof E as (Hi & Hd & _)%list_find_Some. simpl in Hd.
  eexists _, _, i, (apply_set (coffee_set B) d).
  split; [by eapply put_addCoffee_id_matched|].
  split_and!; try done.
  - rewrite coffee_set_frame by apply id_not_coffee_field. done.
  - intros k Hk. by apply coffee_set_frame.
  - intros B' HB'.
    erewrite !put_addCoffee_id_matched by done.
    by rewrite (coffee_set_ext B B').
Qed.

(** ** C9: PUT overwrites all six fields, absent ones with null *)

(** C9.  For a well-formed identifier and any body [B], PUT /addCoffee/:id
    is fulfilled and the record then found for the identifier, matched or
    upserted, has each of the six named fields set to the body's value for
    it; a field the body lacks is stored as null, whatever the record held
    there before. *)
Theorem put_addCoffee_id_overwrites (id : string) (oid : ObjectId) (B : doc)
    (st : state) :
  ObjectId_of_string id = Some oid →
  db_up st = true →
  ∃ ack st' rec,
    put_addCoffee_id id B st = (Fulfilled ack, st') ∧
    findOne_docs (QId oid) (coffeeCollection st') = Some rec ∧
    (∀ k, k ∈ coffee_fields → rec !! k = Some (bson (prop B k))) ∧
    (∀ k v, k ∈ coffee_fields → B !! k = Some v → rec !! k = Some v) ∧
    (∀ k, k ∈ coffee_fields → B !! k = None → rec !! k = Some VNull).
Proof.
  intros Hid Hup.
  assert (∀ rec : doc,
    (∀ k, k ∈ coffee_fields → rec !! k = Some (bson (prop B k))) →
    (∀ k v, k ∈ coffee_fields → B !! k = Some v → rec !! k = Some v) ∧
    (∀ k, k ∈ coffee_fields → B !! k = None → rec !! k = Some VNull)) as Hsplit.
  { intros rec Hrec. split; [intros k v Hk HB | intros k Hk HB];
      rewrite Hrec by done; unfold prop; by rewrite HB. }
  destruct (list_find (matches (QId oid)) (coffeeCollection st))
    as [[i d]|] eqn:E.
  - eexists _, _, (apply_set (coffee_set B) d).
    split; [by eapply put_addCoffee_id_matched|]. simpl.
    split; [apply findOne_docs_updated; [|done]|].
    { rewrite coffee_set_keys. apply id_not_coffee_field. }
    assert (∀ k, k ∈ coffee_fields →
      apply_set (coffee_set B) d !! k = Some (bson (prop B k))) as Hrec
      by (intros; by apply coffee_set_lookup).
    split; [done | by apply Hsplit].
  - apply list_find_None_fresh in E.
    eexists _, _, (apply_set (coffee_set B) {["_id" := VOid oid]}).
    split; [by apply put_addCoffee_id_upserted|]. simpl.
    split.
    { apply findOne_docs_appended; [done|].
      rewrite coffee_set_frame by apply id_not_coffee_field.
      apply lookup_singleton_eq. }
    assert (∀ k, k ∈ coffee_fields →
      apply_set (coffee_set B) {["_id" := VOid oid]} !! k
        = Some (bson (prop B k))) as Hrec
      by (intros; by apply coffee_set_lookup).
    split; [done | by apply Hsplit].
Qed.

(** ** C4: a malformed identifier *)

Lemma new_ObjectId_malformed {B} (id : string) (k : ObjectId → M B) st :
  ObjectId_of_string id = None →
  (new_ObjectId id ≫= k) st = (Rejected BSONError, st).
Proof. intros Hid. unfold new_ObjectId. by rewrite Hid. Qed.

(** C4.  When the path identifier is not a valid ObjectId string, each of
    GET /addCoffee/:id, DELETE /addCoffee/:id, PUT /addCoffee/:id and
    DELETE /users/:id is rejected with the error thrown by the identifier
    constructor: no response is sent, and the state is the one the handler
    started from, so no database operation was issued and both collections
    are unchanged. *)
Theorem malformed_id_throws (id : string) (B : doc) (st : state) :
  ObjectId_of_string id = None →
  get_addCoffee_id id st = (Rejected BSONError, st) ∧
  delete_addCoffee_id id st = (Rejected BSONError, st) ∧
  put_addCoffee_id id B st = (Rejected BSONError, st) ∧
  delete_users_id id st = (Rejected BSONError, st).
Proof.
  intros Hid.
  unfold get_addCoffee_id, delete_addCoffee_id, put_addCoffee_id,
    delete_users_id.
  by rewrite !new_ObjectId_malformed.
Qed.

(** ** C5: delete, then read *)

Lemma has_id_list_find oid (l : list doc) :
  has_id (VOid oid) l → ∃ i d, list_find (matches (QId oid)) l = Some (i, d).
Proof.
  intros H. destruct (list_find (matches (QId oid)) l) as [[i d]|] eqn:E.
  - eauto.
  - by apply list_find_None_fresh in E.
Qed.

Lemma list_find_deleted oid (l : list doc) i (d : doc) :
  NoDup ((λ d : doc, d !! "_id") <$> l) →
  list_find (matches (QId oid)) l = Some (i, d) →
  list_find (matches (QId oid)) (delete i l) = None.
Proof.
  intros Hnd (Hi & Hd & _)%list_find_Some. simpl in Hd.
  apply list_find_None, Forall_lookup. intros j e Hj He. simpl in He.
  assert (∃ j', j' ≠ i ∧ l !! j' = Some e) as (j' & Hne & Hj').
  { destruct (decide (j < i)).
    - exists j. split; [lia|]. by rewrite list_lookup_delete_lt in Hj.
    - exists (S j). split; [lia|]. by rewrite list_lookup_delete_ge in Hj by lia. }
  apply Hne. eapply (NoDup_lookup _ _ _ _ Hnd).
  - by rewrite list_lookup_fmap, Hj'; simpl; rewrite He.
  - by rewrite list_lookup_fmap, Hi; simpl; rewrite Hd.
Qed.

Lemma delete_addCoffee_id_up id oid st :
  ObjectId_of_string id = Some oid → db_up st = true →
  delete_addCoffee_id id st =
    (Fulfilled (mkResponse 200 (DeleteResult
       (match deleteOne_docs (QId oid) (coffeeCollection st) with
        | (Fulfilled n, _) => n
        | (Rejected _, _) => 0
        end))),
     set_collection coffee (deleteOne_docs (QId oid) (coffeeCollection st)).2
       (issue (DbDeleteOne coffee) st)).
Proof.
  intros Hid Hup. unfold delete_addCoffee_id, new_ObjectId. rewrite Hid.
  unfold deleteOne. simpl. unfold mbind, M_bind at 1, mret, M_ret at 1.
  unfold mbind, M_bind. rewrite db_call_up by done. simpl.
  unfold deleteOne_docs. by destruct (list_find _ _) as [[??]|].
Qed.

(** C5.  For an identifier that a coffee document carries, in a collection
    where the store keeps [_id] unique, DELETE /addCoffee/:id is fulfilled
    with a deletion count of one, and GET /addCoffee/:id right after it is
    fulfilled with no document (an empty result). *)
Theorem delete_addCoffee_id_then_get (id : string) (oid : ObjectId)
    (st : state) :
  ObjectId_of_string id = Some oid →
  has_id (VOid oid) (coffeeCollection st) →
  coll_wf (coffeeCollection st) →
  db_up st = true →
  ∃ st',
    delete_addCoffee_id id st
      = (Fulfilled (mkResponse 200 (DeleteResult 1)), st') ∧
    get_addCoffee_id id st'
      = (Fulfilled (mkResponse 200 (Doc None)), issue (DbFindOne coffee) st').
Proof.
  intros Hid Hhas [_ Hnd] Hup.
  destruct (has_id_list_find _ _ Hhas) as (i & d & Hfind).
  eexists. split.
  - rewrite (delete_addCoffee_id_up id oid) by done.
    unfold deleteOne_docs. rewrite Hfind. done.
  - erewrite get_addCoffee_id_up by done. simpl.
    unfold findOne_docs. by rewrite (list_find_deleted _ _ _ _ Hnd Hfind).
Qed.

(** ** C7: the two scans *)

Lemma find_docs_all (l : list doc) : find_docs QAll l = l.
Proof.
  unfold find_docs. induction l as [|d l IH]; [done|].
  rewrite filter_cons_True by done. by rewrite IH.
Qed.

(** C7.  Whenever the store answers, GET /addCoffee and GET /users are
    fulfilled with status 200 and an array that has as many elements as the
    coffee, respectively the user, collection has documents, and that holds
    every stored document; the scan changes neither collection. *)
Theorem get_all_returns_every_document (st : state) :
  db_up st = true →
  (∃ l, get_addCoffee st
          = (Fulfilled (mkResponse 200 (Docs l)), issue (DbFind coffee) st) ∧
        length l = length (coffeeCollection st) ∧
        ∀ d, d ∈ coffeeCollection st → d ∈ l) ∧
  (∃ l, get_users st
          = (Fulfilled (mkResponse 200 (Docs l)), issue (DbFind user) st) ∧
        length l = length (userCollection st) ∧
        ∀ d, d ∈ userCollection st → d ∈ l).
Proof.
  intros Hup. split.
  - exists (coffeeCollection st). split; [|done].
    unfold get_addCoffee. erewrite bind_fulfilled by (by apply find_up).
    simpl. by rewrite find_docs_all.
  - exists (userCollection st). split; [|done].
    unfold get_users. erewrite bind_fulfilled by (by apply find_up).
    simpl. by rewrite find_docs_all.
Qed.

(** ** C8: the root route *)

Lemma root_registered (connect ping : outcome unit) :
  GET_root ∈ routes (main connect ping).
Proof.
  unfold main, run. destruct connect as [[]|e]; [destruct ping as [[]|e]|];
    simpl; set_solver.
Qed.

(** C8.  Whatever the outcome of the connection attempt and of the ping at
    start-up, and in every state of the store (reachable or not), a request
    to GET / is dispatched to the root handler and answered with status 200
    and the text "coffee server is running"; the state is unchanged, so the
    handler issues no database operation. *)
Theorem get_root_always_answers (connect ping : outcome unit) (pk : ObjectId)
    (st : state) :
  serve (main connect ping) pk Get_root st =
    (Fulfilled (mkResponse 200 (Text "coffee server is running")), st) ∧
  get_root st =
    (Fulfilled (mkResponse 200 (Text "coffee server is running")), st).
Proof.
  split; [|done]. unfold serve.
  rewrite decide_True by apply root_registered. done.
Qed.

(** ** C10: each handler keeps to one collection *)


Lemma only_on_ret {A} c (a : A) : only_on c (mret a).
Proof. intros st. exists []. by rewrite app_nil_r. Qed.

Lemma only_on_throw {A} c e : only_on c (@throw A e).
Proof. intros st. exists []. by rewrite app_nil_r. Qed.

Lemma only_on_bind {A B} c (m : M A) (f : A → M B) :
  only_on c m → (∀ a, only_on c (f a)) → only_on c (m ≫= f).
Proof.
  intros Hm Hf st. destruct (Hm st) as (ops & Hlog & Hops & Hfr).
  unfold mbind, M_bind. destruct (m st) as [[a|e] st1]; simpl in *.
  - destruct (Hf a st1) as (ops' & Hlog' & Hops' & Hfr').
    exists (ops ++ ops'). split_and!.
    + by rewrite Hlog', Hlog, app_assoc.
    + by apply Forall_app.
    + intros c' Hc'. by rewrite Hfr', Hfr.
  - by exists ops.
Qed.

Lemma only_on_console_log c (d : doc) : only_on c (console_log d).
Proof. intros st. exists []. rewrite app_nil_r. by split_and!; [..|intros []]. Qed.

Lemma only_on_new_ObjectId c id : only_on c (new_ObjectId id).
Proof.
  unfold new_ObjectId. destruct (ObjectId_of_string id);
    [apply only_on_ret | apply only_on_throw].
Qed.

Lemma only_on_db_call {A} op (f : list doc → outcome A * list doc) :
  only_on (op_coll op) (db_call op f).
Proof.
  intros st. exists [op]. unfold db_call. simpl.
  destruct (db_up st); [destruct (f _) as [r l']|]; simpl.
  - split_and!; [by destruct (op_coll op) | by repeat constructor |].
    intros c' Hc'. rewrite collection_set_other by done. by destruct c'.
  - split_and!; [done | by repeat constructor | by intros []].
Qed.

Lemma handler_only_on pk req c :
  route_coll (route_of req) = Some c → only_on c (handler pk req).
Proof.
  destruct req; simpl; intros [= <-];
    unfold get_addCoffee, get_addCoffee_id, post_addCoffee,
      delete_addCoffee_id, put_addCoffee_id, post_users, get_users,
      delete_users_id, res_send;
    repeat (first
      [ apply only_on_bind; [|intros ?]
      | apply only_on_ret
      | apply only_on_console_log
      | apply only_on_new_ObjectId
      | apply (only_on_db_call (DbFind _))
      | apply (only_on_db_call (DbFindOne _))
      | apply (only_on_db_call (DbInsertOne _))
      | apply (only_on_db_call (DbDeleteOne _))
      | apply (only_on_db_call (DbUpdateOne _)) ]).
Qed.

(** C10.  Whatever the request and the state, the operations its handler
    issues are all on the collection of its route (coffee for the routes
    under /addCoffee, user for those under /users, none for the root route)
    and the other collection is left as it was; so no handler reads or
    writes both collections. *)
Theorem handlers_keep_collections_apart (pk : ObjectId) (req : request)
    (st : state) :
  ∃ ops,
    oplog (handler pk req st).2 = oplog st ++ ops ∧
    match route_coll (route_of req) with
    | Some c =>
        Forall (λ op, op_coll op = c) ops ∧
        ∀ c', c' ≠ c →
          collection c' (handler pk req st).2 = collection c' st
    | None =>
        ops = [] ∧ ∀ c', collection c' (handler pk req st).2 = collection c' st
    end.
Proof.
  destruct (route_coll (route_of req)) as [c|] eqn:E.
  - destruct (handler_only_on pk req c E st) as (ops & ? & ? & ?). eauto.
  - destruct req; try discriminate. exists []. simpl.
    by rewrite app_nil_r.
Qed.

(** ** C6: a failed connection attempt at start-up *)

(** C6, as the code has it.  When the connection attempt is rejected with
    [e], [run] is rejected with [e] before it registers any route; the
    [catch] attached to [run()] receives the rejection and logs it with
    [console.dir], so nothing is left unhandled: the process keeps
    listening, with the root route alone. *)
Theorem connect_failure_logged_and_caught (e : error) (ping : outcome unit) :
  run (Rejected e) ping (app_listen (app_route GET_root (p_log LogUri boot)))
    = (Rejected e, app_listen (app_route GET_root (p_log LogUri boot))) ∧
  Dir e ∈ p_console (main (Rejected e) ping) ∧
  unhandled (main (Rejected e) ping) = [] ∧
  listening (main (Rejected e) ping) = true ∧
  routes (main (Rejected e) ping) = [GET_root].
Proof. split_and!; try done. simpl. set_solver. Qed.

(** C6 as the specification words it fails: with a rejected connection
    attempt the error is logged, but it is not left uncaught. *)
Lemma connect_failure_not_uncaught :
  ¬ (Dir MongoNetworkError
       ∈ p_console (main (Rejected MongoNetworkError) (Fulfilled ())) ∧
     MongoNetworkError
       ∈ unhandled (main (Rejected MongoNetworkError) (Fulfilled ()))).
Proof. intros [_ H]. simpl in H. by apply elem_of_nil in H. Qed.

(** ** The store's invariant is kept by every handler *)

Lemma coll_wf_nil : coll_wf [].
Proof. split; [constructor | constructor]. Qed.

Lemma coll_wf_snoc (l : list doc) (d : doc) v :
  coll_wf l → d !! "_id" = Some v → ¬ has_id v l → coll_wf (l ++ [d]).
Proof.
  intros [Hall Hnd] Hd Hfresh. split.
  - apply Forall_app. split; [done|]. repeat constructor. by rewrite Hd.
  - rewrite fmap_app. apply NoDup_app. split_and!; [done| |].
    + intros o Ho Ho'. simpl in Ho'. apply list_elem_of_singleton in Ho'.
      subst o. apply Hfresh. apply list_elem_of_fmap in Ho as (e & He & Hin).
      apply Exists_exists. exists e. split; [done|]. by rewrite <- He.
    + simpl. apply NoDup_singleton.
Qed.

Lemma insertOne_docs_wf pk (d : doc) (l : list doc) :
  coll_wf l → coll_wf (insertOne_docs pk d l).2.
Proof.
  intros Hwf. unfold insertOne_docs. destruct (is_array _); [done|].
  destruct (decide _) as [|Hfresh]; [done|]. simpl.
  eapply coll_wf_snoc; [done | apply lookup_insert_eq | done].
Qed.

Lemma deleteOne_docs_wf q (l : list doc) :
  coll_wf l → coll_wf (deleteOne_docs q l).2.
Proof.
  intros [Hall Hnd]. unfold deleteOne_docs.
  destruct (list_find _ _) as [[i d]|]; [|done]. simpl. split.
  - by apply Forall_delete.
  - rewrite list_fmap_delete. exact (sublist_NoDup _ _ Hnd (sublist_delete _ i)).
Qed.

Lemma updateOne_docs_wf oid upd upsert (l : list doc) :
  "_id" ∉ upd.*1 → coll_wf l → coll_wf (updateOne_docs oid upd upsert l).2.
Proof.
  intros Hid Hwf. unfold updateOne_docs.
  destruct (list_find _ _) as [[i d]|] eqn:E.
  - simpl. destruct Hwf as [Hall Hnd].
    apply list_find_Some in E as (Hi & Hd & _). simpl in Hd. split.
    + apply Forall_insert; [done|]. rewrite apply_set_notin by done.
      by rewrite Hd.
    + rewrite list_fmap_insert, apply_set_notin by done.
      rewrite list_insert_id; [done|]. by rewrite list_lookup_fmap, Hi.
  - destruct upsert; [|done]. simpl.
    apply list_find_None_fresh in E.
    eapply coll_wf_snoc; [done| |done].
    rewrite apply_set_notin by done. apply lookup_singleton_eq.
Qed.


Lemma keeps_wf_ret {A} (a : A) : keeps_wf (mret a).
Proof. by intros st H. Qed.

Lemma keeps_wf_bind {A B} (m : M A) (f : A → M B) :
  keeps_wf m → (∀ a, keeps_wf (f a)) → keeps_wf (m ≫= f).
Proof.
  intros Hm Hf st Hwf. specialize (Hm st Hwf).
  unfold mbind, M_bind. destruct (m st) as [[a|e] st1]; simpl in *; [|done].
  by apply Hf.
Qed.

Lemma keeps_wf_console_log (d : doc) : keeps_wf (console_log d).
Proof. intros st H c. specialize (H c). by destruct c. Qed.

Lemma keeps_wf_new_ObjectId id : keeps_wf (new_ObjectId id).
Proof.
  unfold new_ObjectId. destruct (ObjectId_of_string id); by intros st H.
Qed.

Lemma keeps_wf_db_call {A} op (f : list doc → outcome A * list doc) :
  (∀ l, coll_wf l → coll_wf (f l).2) → keeps_wf (db_call op f).
Proof.
  intros Hf st Hwf c. unfold db_call. simpl.
  destruct (db_up st).
  - pose proof (Hf _ (Hwf (op_coll op))) as Hl.
    replace (collection (op_coll op) (issue op st))
      with (collection (op_coll op) st) by (by destruct (op_coll op)).
    destruct (f _) as [r l']. simpl in *.
    destruct (decide (op_coll op = c)) as [<-|Hne].
    + by rewrite collection_set.
    + rewrite collection_set_other by done. specialize (Hwf c). by destruct c.
  - specialize (Hwf c). by destruct c.
Qed.

(** Every handler keeps [_id] present and unique in both collections. *)
Lemma handler_keeps_wf pk req : keeps_wf (handler pk req).
Proof.
  destruct req; simpl;
    unfold get_addCoffee, get_addCoffee_id, post_addCoffee,
      delete_addCoffee_id, put_addCoffee_id, post_users, get_users,
      delete_users_id, get_root, res_send, find, findOne, insertOne,
      deleteOne, updateOne;
    repeat (first
      [ apply keeps_wf_bind; [|intros ?]
      | apply keeps_wf_ret
      | apply keeps_wf_console_log
      | apply keeps_wf_new_ObjectId
      | apply keeps_wf_db_call; intros l Hl; simpl;
        first [ done
              | by apply insertOne_docs_wf
              | by apply deleteOne_docs_wf
              | apply updateOne_docs_wf; [apply id_not_coffee_field | done] ] ]).
Qed.

(** ** The claims on the sample store *)

Lemma post_addCoffee_then_get_witness :
  get_addCoffee_id (toHexString oid_1) (post_addCoffee oid_1 latte empty_store).2 =
    (Fulfilled (mkResponse 200 (Doc (Some (<["_id" := VOid oid_1]> latte)))),
     issue (DbFindOne coffee) (post_addCoffee oid_1 latte empty_store).2).
Proof.
  apply (post_addCoffee_then_get oid_1 latte empty_store
           (post_addCoffee oid_1 latte empty_store).2
           (mkResponse 200 (InsertOneResult (VOid oid_1)))).
  - vm_compute. reflexivity.
  - reflexivity.
Defined.

Lemma put_addCoffee_id_creates_witness :
  ∃ ack st' rec,
    put_addCoffee_id "aaaaaaaaaaaaaaaaaaaaaaaa" latte one_coffee
      = (Fulfilled ack, st') ∧
    body ack = UpdateAck (mkUpdateResult 0 0 1 (Some oid_a)) ∧
    coffeeCollection st' = coffeeCollection one_coffee ++ [rec] ∧
    rec !! "_id" = Some (VOid oid_a) ∧
    (∀ k v, k ∈ coffee_fields → latte !! k = Some v → rec !! k = Some v) ∧
    (∀ k, k ∈ coffee_fields → rec !! k = Some (bson (prop latte k))) ∧
    get_addCoffee_id "aaaaaaaaaaaaaaaaaaaaaaaa" st' =
      (Fulfilled (mkResponse 200 (Doc (Some rec))),
       issue (DbFindOne coffee) st').
Proof.
  apply (put_addCoffee_id_creates "aaaaaaaaaaaaaaaaaaaaaaaa" oid_a latte
           one_coffee).
  - reflexivity.
  - apply (bool_decide_unpack _). vm_compute. exact I.
  - reflexivity.
Defined.

Lemma put_addCoffee_id_frame_witness :
  ∃ ack st' i d',
    put_addCoffee_id "111111111111111111111111" mocha_with_price one_coffee
      = (Fulfilled ack, st') ∧
    coffeeCollection one_coffee !! i = Some (<["_id" := VOid oid_1]> latte) ∧
    coffeeCollection st' = <[i := d']> (coffeeCollection one_coffee) ∧
    userCollection st' = userCollection one_coffee ∧
    d' !! "_id" = Some (VOid oid_1) ∧
    (∀ k, k ∉ coffee_fields →
       d' !! k = (<["_id" := VOid oid_1]> latte : doc) !! k) ∧
    (∀ B' : doc, (∀ k, k ∈ coffee_fields → B' !! k = mocha_with_price !! k) →
       put_addCoffee_id "111111111111111111111111" B' one_coffee
         = put_addCoffee_id "111111111111111111111111" mocha_with_price
             one_coffee).
Proof.
  apply (put_addCoffee_id_frame "111111111111111111111111" oid_1
           mocha_with_price (<["_id" := VOid oid_1]> latte) one_coffee).
  - reflexivity.
  - vm_compute. reflexivity.
  - reflexivity.
Defined.

Lemma malformed_id_throws_witness :
  get_addCoffee_id "latte" one_coffee = (Rejected BSONError, one_coffee) ∧
  delete_addCoffee_id "latte" one_coffee = (Rejected BSONError, one_coffee) ∧
  put_addCoffee_id "latte" latte one_coffee
    = (Rejected BSONError, one_coffee) ∧
  delete_users_id "latte" one_coffee = (Rejected BSONError, one_coffee).
Proof. apply (malformed_id_throws "latte" latte one_coffee). reflexivity. Defined.

Lemma delete_addCoffee_id_then_get_witness :
  ∃ st',
    delete_addCoffee_id "111111111111111111111111" one_coffee
      = (Fulfilled (mkResponse 200 (DeleteResult 1)), st') ∧
    get_addCoffee_id "111111111111111111111111" st'
      = (Fulfilled (mkResponse 200 (Doc None)), issue (DbFindOne coffee) st').
Proof.
  apply (delete_addCoffee_id_then_get "111111111111111111111111" oid_1
           one_coffee).
  - reflexivity.
  - apply (bool_decide_unpack _). vm_compute. exact I.
  - apply (bool_decide_unpack _). vm_compute. exact I.
  - reflexivity.
Defined.

Lemma get_all_returns_every_document_witness :
  (∃ l, get_addCoffee one_coffee
          = (Fulfilled (mkResponse 200 (Docs l)),
             issue (DbFind coffee) one_coffee) ∧
        length l = length (coffeeCollection one_coffee) ∧
        ∀ d, d ∈ coffeeCollection one_coffee → d ∈ l) ∧
  (∃ l, get_users one_coffee
          = (Fulfilled (mkResponse 200 (Docs l)),
             issue (DbFind user) one_coffee) ∧
        length l = length (userCollection one_coffee) ∧
        ∀ d, d ∈ userCollection one_coffee → d ∈ l).
Proof. apply (get_all_returns_every_document one_coffee). reflexivity. Defined.

Lemma put_addCoffee_id_overwrites_witness :
  ∃ ack st' rec,
    put_addCoffee_id "111111111111111111111111" mocha_with_price one_coffee
      = (Fulfilled ack, st') ∧
    findOne_docs (QId oid_1) (coffeeCollection st') = Some rec ∧
    (∀ k, k ∈ coffee_fields → rec !! k = Some (bson (prop mocha_with_price k))) ∧
    (∀ k v, k ∈ coffee_fields →
       mocha_with_price !! k = Some v → rec !! k = Some v) ∧
    (∀ k, k ∈ coffee_fields →
       mocha_with_price !! k = None → rec !! k = Some VNull).
Proof.
  apply (put_addCoffee_id_overwrites "111111111111111111111111" oid_1
           mocha_with_price one_coffee); reflexivity.
Defined.

(** * Further properties of the handlers *)

(** ** Insert, then scan *)

Lemma db_up_issue op st : db_up (issue op st) = db_up st.
Proof. done. Qed.

Lemma insertOne_then_find c pk (B : doc) st v st' :
  insertOne c pk B st = (Fulfilled v, st') →
  find c QAll st' =
    (Fulfilled (collection c st ++ [<["_id" := v]> B]), issue (DbFind c) st').
Proof.
  intros (Hup & _ & _ & ->)%insertOne_fulfilled.
  rewrite find_up by (by rewrite db_up_set).
  by rewrite collection_set, find_docs_all.
Qed.

(** X1.  When POST /users with body [B] is fulfilled, its acknowledgment
    carries the [_id] the document got (its own, or the generated one), and
    GET /users right after it answers with the documents that were there
    before, in their order, followed by [B] with that [_id]. *)
Theorem post_users_then_get_users (pk : ObjectId) (B : doc) (st st' : state)
    (ack : response) :
  post_users pk B st = (Fulfilled ack, st') →
  ∃ v,
    ack = mkResponse 200 (InsertOneResult v) ∧
    v = doc_id pk B ∧
    get_users st' =
      (Fulfilled (mkResponse 200 (Docs (userCollection st ++ [<["_id" := v]> B]))),
       issue (DbFind user) st').
Proof.
  intros Hpost. unfold post_users in Hpost.
  apply bind_inv in Hpost as ([] & st1 & Hlog & Hpost).
  apply bind_inv in Hpost as (v & st2 & Hins & Hsend).
  injection Hsend as <- <-. injection Hlog as <-.
  exists v. split; [done|]. split.
  - by apply insertOne_fulfilled in Hins as (_ & -> & _).
  - unfold get_users.
    erewrite bind_fulfilled by (by eapply insertOne_then_find). done.
Qed.

(** X2.  When POST /addCoffee with body [D] is fulfilled, GET /addCoffee
    right after it answers with one document more than the collection had:
    the earlier documents in their order, then [D] with its [_id]. *)
Theorem post_addCoffee_then_get_addCoffee (pk : ObjectId) (D : doc)
    (st st' : state) (ack : response) :
  post_addCoffee pk D st = (Fulfilled ack, st') →
  ∃ l,
    get_addCoffee st' =
      (Fulfilled (mkResponse 200 (Docs l)), issue (DbFind coffee) st') ∧
    l = coffeeCollection st ++ [<["_id" := doc_id pk D]> D] ∧
    length l = S (length (coffeeCollection st)).
Proof.
  intros Hpost. unfold post_addCoffee in Hpost.
  apply bind_inv in Hpost as ([] & st1 & Hlog & Hpost).
  apply bind_inv in Hpost as (v & st2 & Hins & Hsend).
  injection Hsend as _ <-. injection Hlog as <-.
  pose proof Hins as (_ & -> & _)%insertOne_fulfilled.
  eexists. split; [|split; [done|]].
  - unfold get_addCoffee.
    erewrite bind_fulfilled by (by eapply insertOne_then_find). done.
  - rewrite length_app. simpl. lia.
Qed.

(** ** Inserts the store refuses, and the null [_id] *)



(** ** What holds of every request *)

Ltac in_list :=
  simpl; rewrite ?elem_of_cons, ?elem_of_nil;
  intuition (try discriminate; try congruence).

Ltac unfold_handlers :=
  unfold handler, get_addCoffee, get_addCoffee_id, post_addCoffee,
    delete_addCoffee_id, put_addCoffee_id, post_users, get_users,
    delete_users_id, get_root, res_send, new_ObjectId, find, findOne,
    insertOne, deleteOne, updateOne, db_call, console_log, throw,
    insertOne_docs, deleteOne_docs, updateOne_docs,
    mbind, M_bind, mret, M_ret in *.

Ltac handler_cases req :=
  destruct req; unfold_handlers; simpl in *;
  repeat (case_match; simpl in *; simplify_eq/=); simplify_eq/=.

(** X5.  A request that ends rejected, for whatever reason (malformed
    identifier, store not answering, insert refused), has changed neither
    collection. *)
Theorem rejected_request_changes_nothing (pk : ObjectId) (req : request)
    (st st' : state) (e : error) :
  handler pk req st = (Rejected e, st') →
  coffeeCollection st' = coffeeCollection st ∧
  userCollection st' = userCollection st.
Proof. intros H. handler_cases req; done. Qed.

(** X6.  A request that is fulfilled is answered with status 200 and the
    raw result of its route's one call: the scans send an array, the reads
    by identifier a document or nothing, the inserts the inserted [_id],
    the deletes a deletion count of zero or one, and the update an
    acknowledgment in which exactly one document was either matched or
    upserted. *)
Theorem fulfilled_request_answer (pk : ObjectId) (req : request)
    (st st' : state) (resp : response) :
  handler pk req st = (Fulfilled resp, st') →
  status resp = 200 ∧
  match req with
  | Get_addCoffee | Get_users => ∃ l, body resp = Docs l
  | Get_addCoffee_id _ => ∃ d, body resp = Doc d
  | Post_addCoffee b | Post_users b =>
      body resp = InsertOneResult (doc_id pk b)
  | Delete_addCoffee_id _ | Delete_users_id _ =>
      ∃ n, body resp = DeleteResult n ∧ (n ≤ 1)%nat
  | Put_addCoffee_id _ _ =>
      ∃ r, body resp = UpdateAck r ∧ (matchedCount r + upsertedCount r = 1)%nat ∧
           (modifiedCount r ≤ matchedCount r)%nat
  | Get_root => body resp = Text "coffee server is running"
  end.
Proof.
  intros H. handler_cases req; split; try done; eauto;
    try (eexists; split; [done|simpl; lia]);
    try (eexists; split; [done|simpl; split; lia]).
Qed.

(** X7.  Every handler issues at most one database operation, and none at
    all exactly for the root route and for a request whose path identifier
    is malformed. *)
Theorem at_most_one_operation (pk : ObjectId) (req : request) (st : state) :
  ∃ ops,
    oplog (handler pk req st).2 = oplog st ++ ops ∧
    (length ops ≤ 1)%nat ∧
    (ops = [] ↔
     req = Get_root ∨
     ∃ id, path_id req = Some id ∧ ObjectId_of_string id = None).
Proof.
  destruct req; unfold_handlers; simpl;
    repeat (case_match; simpl in *; simplify_eq/=);
    first
      [ exists []; rewrite app_nil_r; split; [done|]; split; [simpl; lia|];
        split; [intros _; by eauto | done]
      | eexists [_]; split; [done|]; split; [simpl; lia|];
        split; [done | intros [? | (? & ? & ?)]; by simplify_eq] ].
Qed.

(** X8.  While the store does not answer, every request but the root one,
    with a well-formed path identifier where it has one, is rejected with
    the network error after issuing its one operation; both collections
    stay as they are. *)
Theorem store_down_rejects (pk : ObjectId) (req : request) (st : state) :
  db_up st = false →
  req ≠ Get_root →
  (∀ id, path_id req = Some id → is_Some (ObjectId_of_string id)) →
  ∃ st',
    handler pk req st = (Rejected MongoNetworkError, st') ∧
    coffeeCollection st' = coffeeCollection st ∧
    userCollection st' = userCollection st ∧
    length (oplog st') = S (length (oplog st)).
Proof.
  intros Hup Hroot Hid.
  destruct req; try done; unfold_handlers; simpl in *;
    try (destruct (Hid _ eq_refl) as [oid ->]); simpl; rewrite ?Hup;
    eexists; (split; [done|]); simpl; rewrite length_app; simpl;
    split_and!; try done; lia.
Qed.

(** X9.  The console after a request: the two POST handlers have logged the
    body, once, also when the insert is then refused or the store does not
    answer; no other handler logs anything. *)
Theorem console_after_request (pk : ObjectId) (req : request) (st : state) :
  console (handler pk req st).2 = console st ++ logged_body req.
Proof.
  destruct req; unfold_handlers; simpl;
    repeat (case_match; simpl in *; simplify_eq/=);
    by rewrite ?app_nil_r.
Qed.

(** X10.  The four GET routes only read: whatever the state and the
    identifier, both collections and the console are afterwards what they
    were. *)
Theorem get_routes_read_only (pk : ObjectId) (req : request) (st : state) :
  is_get req = true →
  coffeeCollection (handler pk req st).2 = coffeeCollection st ∧
  userCollection (handler pk req st).2 = userCollection st ∧
  console (handler pk req st).2 = console st.
Proof.
  intros Hget. destruct req; try done; unfold_handlers; simpl;
    repeat (case_match; simpl in *; simplify_eq/=); done.
Qed.

(** ** Reads and deletes by identifier *)

Lemma deleteOne_up c q st :
  db_up st = true →
  deleteOne c q st =
    match list_find (matches q) (collection c st) with
    | Some (i, _) =>
        (Fulfilled 1,
         set_collection c (delete i (collection c st)) (issue (DbDeleteOne c) st))
    | None => (Fulfilled 0, issue (DbDeleteOne c) st)
    end.
Proof.
  intros Hup. unfold deleteOne. rewrite db_call_up by done. simpl.
  unfold deleteOne_docs. destruct (list_find _ _) as [[i d]|]; simpl; [done|].
  by destruct c, st.
Qed.

Lemma delete_users_id_up id oid st :
  ObjectId_of_string id = Some oid → db_up st = true →
  delete_users_id id st =
    match list_find (matches (QId oid)) (userCollection st) with
    | Some (i, _) =>
        (Fulfilled (mkResponse 200 (DeleteResult 1)),
         set_collection user (delete i (userCollection st))
           (issue (DbDeleteOne user) st))
    | None =>
        (Fulfilled (mkResponse 200 (DeleteResult 0)), issue (DbDeleteOne user) st)
    end.
Proof.
  intros Hid Hup. unfold delete_users_id, new_ObjectId. rewrite Hid.
  unfold mbind, M_bind at 1, mret, M_ret at 1.
  unfold mbind, M_bind. rewrite deleteOne_up by done. simpl.
  by destruct (list_find _ _) as [[??]|].
Qed.

Lemma delete_addCoffee_id_cases id oid st :
  ObjectId_of_string id = Some oid → db_up st = true →
  delete_addCoffee_id id st =
    match list_find (matches (QId oid)) (coffeeCollection st) with
    | Some (i, _) =>
        (Fulfilled (mkResponse 200 (DeleteResult 1)),
         set_collection coffee (delete i (coffeeCollection st))
           (issue (DbDeleteOne coffee) st))
    | None =>
        (Fulfilled (mkResponse 200 (DeleteResult 0)),
         issue (DbDeleteOne coffee) st)
    end.
Proof.
  intros Hid Hup. unfold delete_addCoffee_id, new_ObjectId. rewrite Hid.
  unfold mbind, M_bind at 1, mret, M_ret at 1.
  unfold mbind, M_bind. rewrite deleteOne_up by done. simpl.
  by destruct (list_find _ _) as [[??]|].
Qed.

(** X11.  DELETE with a well-formed identifier that no document of the
    collection carries is not an error: DELETE /addCoffee/:id and DELETE
    /users/:id are fulfilled with a deletion count of zero, and nothing but
    the list of issued operations changes. *)
Theorem delete_absent_id (id : string) (oid : ObjectId) (st : state) :
  ObjectId_of_string id = Some oid →
  db_up st = true →
  (¬ has_id (VOid oid) (coffeeCollection st) →
   delete_addCoffee_id id st =
     (Fulfilled (mkResponse 200 (DeleteResult 0)),
      issue (DbDeleteOne coffee) st)) ∧
  (¬ has_id (VOid oid) (userCollection st) →
   delete_users_id id st =
     (Fulfilled (mkResponse 200 (DeleteResult 0)),
      issue (DbDeleteOne user) st)).
Proof.
  intros Hid Hup. split; intros Habs%list_find_None_fresh.
  - rewrite (delete_addCoffee_id_cases id oid) by done. by rewrite Habs.
  - rewrite (delete_users_id_up id oid) by done. by rewrite Habs.
Qed.

(** X12.  GET /addCoffee/:id with a well-formed identifier, while the store
    answers, is always fulfilled with status 200: with no document exactly
    when no coffee document carries the identifier, and otherwise with a
    document of the collection that carries it. *)
Theorem get_addCoffee_id_result (id : string) (oid : ObjectId) (st : state) :
  ObjectId_of_string id = Some oid →
  db_up st = true →
  ∃ r,
    get_addCoffee_id id st =
      (Fulfilled (mkResponse 200 (Doc r)), issue (DbFindOne coffee) st) ∧
    (r = None ↔ ¬ has_id (VOid oid) (coffeeCollection st)) ∧
    (∀ d : doc, r = Some d →
       d ∈ coffeeCollection st ∧ d !! "_id" = Some (VOid oid)).
Proof.
  intros Hid Hup. eexists. split; [by apply get_addCoffee_id_up|].
  unfold findOne_docs. rewrite <- list_find_None_fresh.
  destruct (list_find _ _) as [[i e]|] eqn:E; simpl.
  - split; [done|]. intros d [= <-].
    apply list_find_Some in E as (Hi & He & _).
    split; [by eapply list_elem_of_lookup_2 | done].
  - done.
Qed.

(** X13.  For an identifier that a user document carries, in a collection
    where [_id] is unique, DELETE /users/:id is fulfilled with a deletion
    count of one and removes that document alone: the collection is one
    shorter, no document carries the identifier any more, every document
    with another [_id] is still there, and the coffee collection is
    untouched. *)
Theorem delete_users_id_removes_one (id : string) (oid : ObjectId)
    (st : state) :
  ObjectId_of_string id = Some oid →
  has_id (VOid oid) (userCollection st) →
  coll_wf (userCollection st) →
  db_up st = true →
  ∃ st',
    delete_users_id id st
      = (Fulfilled (mkResponse 200 (DeleteResult 1)), st') ∧
    S (length (userCollection st')) = length (userCollection st) ∧
    ¬ has_id (VOid oid) (userCollection st') ∧
    (∀ d : doc, d ∈ userCollection st → d !! "_id" ≠ Some (VOid oid) →
       d ∈ userCollection st') ∧
    coffeeCollection st' = coffeeCollection st.
Proof.
  intros Hid Hhas [_ Hnd] Hup.
  destruct (has_id_list_find _ _ Hhas) as (i & e & Hfind).
  rewrite (delete_users_id_up id oid) by done. rewrite Hfind.
  eexists. split; [done|]. simpl.
  pose proof Hfind as (Hi & He & _)%list_find_Some. simpl in He.
  split_and!; [| |  |done].
  - rewrite length_delete by eauto.
    apply lookup_lt_Some in Hi. lia.
  - apply list_find_None_fresh. by eapply list_find_deleted.
  - intros d Hd Hne. apply list_elem_of_lookup in Hd as [j Hj].
    assert (j ≠ i) as Hji by (intros ->; simplify_eq).
    apply list_elem_of_lookup.
    destruct (decide (j < i)).
    + exists j. by rewrite list_lookup_delete_lt.
    + exists (pred j). rewrite list_lookup_delete_ge by lia.
      by replace (S (pred j)) with j by lia.
Qed.

(** X14.  DELETE /addCoffee/:id is idempotent on the store: after a first
    delete of an identifier the collection carried (with [_id] unique), the
    same request is fulfilled again, now with a deletion count of zero, and
    leaves both collections as the first delete left them. *)
Theorem delete_addCoffee_id_twice (id : string) (oid : ObjectId) (st : state) :
  ObjectId_of_string id = Some oid →
  has_id (VOid oid) (coffeeCollection st) →
  coll_wf (coffeeCollection st) →
  db_up st = true →
  ∃ st1,
    delete_addCoffee_id id st
      = (Fulfilled (mkResponse 200 (DeleteResult 1)), st1) ∧
    delete_addCoffee_id id st1
      = (Fulfilled (mkResponse 200 (DeleteResult 0)),
         issue (DbDeleteOne coffee) st1).
Proof.
  intros Hid Hhas [_ Hnd] Hup.
  destruct (has_id_list_find _ _ Hhas) as (i & e & Hfind).
  rewrite (delete_addCoffee_id_cases id oid) by done. rewrite Hfind.
  eexists. split; [done|].
  rewrite (delete_addCoffee_id_cases id oid) by done. simpl.
  by rewrite (list_find_deleted _ _ _ _ Hnd Hfind).
Qed.

(** ** How the update composes with itself and with delete *)

Lemma list_find_appended oid (l : list doc) (d : doc) :
  ¬ has_id (VOid oid) l → d !! "_id" = Some (VOid oid) →
  list_find (matches (QId oid)) (l ++ [d]) = Some (length l, d).
Proof.
  intros Hfresh%list_find_None_fresh Hd.
  rewrite list_find_app_r by done. simpl. by rewrite decide_True.
Qed.

Lemma list_find_updated oid upd (l : list doc) i (d : doc) :
  "_id" ∉ upd.*1 →
  list_find (matches (QId oid)) l = Some (i, d) →
  list_find (matches (QId oid)) (<[i := apply_set upd d]> l)
    = Some (i, apply_set upd d).
Proof.
  intros Hid (Hi & Hd & Hleast)%list_find_Some.
  apply list_find_insert_Some. right; left. split_and!; try done.
  - by eapply lookup_lt_Some.
  - simpl in *. by rewrite apply_set_notin.
Qed.

Lemma delete_appended {A} (l : list A) (x : A) : delete (length l) (l ++ [x]) = l.
Proof. induction l as [|y l IH]; simpl; [done | by rewrite IH]. Qed.

Lemma coffee_set_idemp (B d : doc) :
  apply_set (coffee_set B) (apply_set (coffee_set B) d)
    = apply_set (coffee_set B) d.
Proof.
  apply map_eq. intros k. destruct (decide (k ∈ coffee_fields)).
  - by rewrite !coffee_set_lookup.
  - by rewrite coffee_set_frame.
Qed.

Lemma put_addCoffee_id_found id oid (B : doc) st :
  ObjectId_of_string id = Some oid → db_up st = true →
  ∃ ack st1 j d,
    put_addCoffee_id id B st = (Fulfilled ack, st1) ∧
    db_up st1 = true ∧
    list_find (matches (QId oid)) (coffeeCollection st1)
      = Some (j, apply_set (coffee_set B) d).
Proof.
  intros Hid Hup.
  destruct (list_find (matches (QId oid)) (coffeeCollection st))
    as [[i d]|] eqn:E.
  - eexists _, _, i, d. split; [by eapply put_addCoffee_id_matched|].
    split; [done|]. simpl. apply list_find_updated; [|done].
    rewrite coffee_set_keys. apply id_not_coffee_field.
  - apply list_find_None_fresh in E.
    eexists _, _, _, _. split; [by apply put_addCoffee_id_upserted|].
    split; [done|]. simpl. apply list_find_appended; [done|].
    rewrite coffee_set_frame by apply id_not_coffee_field.
    apply lookup_singleton_eq.
Qed.

(** X15.  PUT /addCoffee/:id is idempotent: after a first PUT with a
    well-formed identifier and body [B], the same request is fulfilled
    again, reports one document matched, none modified and none upserted,
    and leaves both collections exactly as the first PUT left them. *)
Theorem put_addCoffee_id_twice (id : string) (oid : ObjectId) (B : doc)
    (st : state) :
  ObjectId_of_string id = Some oid →
  db_up st = true →
  ∃ ack st1,
    put_addCoffee_id id B st = (Fulfilled ack, st1) ∧
    put_addCoffee_id id B st1 =
      (Fulfilled (mkResponse 200 (UpdateAck (mkUpdateResult 1 0 0 None))),
       issue (DbUpdateOne coffee) st1).
Proof.
  intros Hid Hup.
  destruct (put_addCoffee_id_found id oid B st Hid Hup)
    as (ack & st1 & j & d & Hput & Hup1 & Hfind).
  exists ack, st1. split; [done|].
  erewrite put_addCoffee_id_matched by done.
  rewrite coffee_set_idemp, decide_True by done.
  rewrite list_insert_id by (by apply list_find_Some in Hfind as (? & _)).
  by destruct st1.
Qed.

(** X16.  A PUT that had to create its record is undone by DELETE: for a
    well-formed identifier that no coffee document carries, PUT
    /addCoffee/:id followed by DELETE /addCoffee/:id is fulfilled with a
    deletion count of one and leaves both collections as they were before
    the PUT. *)
Theorem put_then_delete_restores (id : string) (oid : ObjectId) (B : doc)
    (st : state) :
  ObjectId_of_string id = Some oid →
  ¬ has_id (VOid oid) (coffeeCollection st) →
  db_up st = true →
  ∃ ack st1 st2,
    put_addCoffee_id id B st = (Fulfilled ack, st1) ∧
    delete_addCoffee_id id st1
      = (Fulfilled (mkResponse 200 (DeleteResult 1)), st2) ∧
    coffeeCollection st2 = coffeeCollection st ∧
    userCollection st2 = userCollection st.
Proof.
  intros Hid Hfresh Hup. eexists _, _, _.
  split; [by apply put_addCoffee_id_upserted|].
  rewrite (delete_addCoffee_id_cases id oid) by done. simpl.
  rewrite list_find_appended; [|done|].
  - split; [done|]. simpl. by rewrite delete_appended.
  - rewrite coffee_set_frame by apply id_not_coffee_field.
    apply lookup_singleton_eq.
Qed.

(** X17.  An insert is undone by DELETE with the generated identifier: when
    POST /addCoffee is fulfilled with the identifier generated for it,
    DELETE /addCoffee/:id with that identifier's hexadecimal form is
    fulfilled with a deletion count of one and leaves both collections as
    they were before the POST. *)
Theorem post_then_delete_restores (pk : ObjectId) (D : doc) (st st' : state)
    (ack : response) :
  post_addCoffee pk D st = (Fulfilled ack, st') →
  body ack = InsertOneResult (VOid pk) →
  ∃ st'',
    delete_addCoffee_id (toHexString pk) st'
      = (Fulfilled (mkResponse 200 (DeleteResult 1)), st'') ∧
    coffeeCollection st'' = coffeeCollection st ∧
    userCollection st'' = userCollection st.
Proof.
  intros Hpost Hack. unfold post_addCoffee in Hpost.
  apply bind_inv in Hpost as ([] & st1 & Hlog & Hpost).
  apply bind_inv in Hpost as (v & st2 & Hins & Hsend).
  injection Hsend as <- <-. simpl in Hack. injection Hack as ->.
  apply insertOne_fulfilled in Hins as (Hup & Hv & Hfresh & ->).
  injection Hlog as <-. simpl in *.
  rewrite (delete_addCoffee_id_cases _ pk)
    by (done || apply ObjectId_of_toHexString).
  simpl. rewrite list_find_appended; [|done|apply lookup_insert_eq].
  eexists. split; [done|]. simpl. by rewrite delete_appended.
Qed.

(** X18.  PUT /addCoffee/:id never removes a document and tells in its
    acknowledgment what it did: with a well-formed identifier it is
    fulfilled, and either the identifier was carried, one document is
    reported matched and the collection keeps its length, or it was not, one
    upsert is reported with the identifier and the collection is one longer.
    The user collection is unchanged either way. *)
Theorem put_addCoffee_id_count (id : string) (oid : ObjectId) (B : doc)
    (st : state) :
  ObjectId_of_string id = Some oid →
  db_up st = true →
  ∃ r st',
    put_addCoffee_id id B st = (Fulfilled (mkResponse 200 (UpdateAck r)), st') ∧
    userCollection st' = userCollection st ∧
    ((has_id (VOid oid) (coffeeCollection st) ∧
      matchedCount r = 1 ∧ upsertedCount r = 0 ∧ upsertedId r = None ∧
      length (coffeeCollection st') = length (coffeeCollection st)) ∨
     (¬ has_id (VOid oid) (coffeeCollection st) ∧
      matchedCount r = 0 ∧ upsertedCount r = 1 ∧ upsertedId r = Some oid ∧
      length (coffeeCollection st') = S (length (coffeeCollection st)))).
Proof.
  intros Hid Hup.
  destruct (list_find (matches (QId oid)) (coffeeCollection st))
    as [[i d]|] eqn:E.
  - eexists _, _. split; [by eapply put_addCoffee_id_matched|].
    split; [done|]. left. simpl. rewrite length_insert.
    split_and!; try done.
    apply list_find_Some in E as (Hi & Hd & _).
    apply Exists_exists. exists d. split; [by eapply list_elem_of_lookup_2|done].
  - apply list_find_None_fresh in E.
    eexists _, _. split; [by apply put_addCoffee_id_upserted|].
    split; [done|]. right. simpl. rewrite length_app. simpl.
    split_and!; try done. lia.
Qed.

(** ** The store's invariant, stated for a request *)

(** X19.  No request can make two documents of a collection share an
    [_id], or leave a document without one: when [_id] is present and
    unique in both collections before a request, it is so after it,
    whatever the request and however it ends. *)
Theorem request_preserves_unique_ids (pk : ObjectId) (req : request)
    (st : state) :
  coll_wf (coffeeCollection st) →
  coll_wf (userCollection st) →
  coll_wf (coffeeCollection (handler pk req st).2) ∧
  coll_wf (userCollection (handler pk req st).2).
Proof.
  intros Hc Hu.
  assert (∀ c, coll_wf (collection c st)) as Hwf by (by intros []).
  split.
  - apply (handler_keeps_wf pk req st Hwf coffee).
  - apply (handler_keeps_wf pk req st Hwf user).
Qed.

(** ** Start-up and dispatch *)

(** X20.  When the connection succeeds and the ping is rejected with [e],
    the eight routes of [run] are registered all the same, next to the root
    route: the rejection reaches the [catch] of [run()], which logs [e];
    the success message of the ping is not logged, nothing is left
    unhandled and the process listens. *)
Theorem ping_failure_keeps_routes (e : error) :
  (∀ r, r ∈ routes (main (Fulfilled ()) (Rejected e))) ∧
  Dir e ∈ p_console (main (Fulfilled ()) (Rejected e)) ∧
  (LogPinged ∉ p_console (main (Fulfilled ()) (Rejected e))) ∧
  unhandled (main (Fulfilled ()) (Rejected e)) = [] ∧
  listening (main (Fulfilled ()) (Rejected e)) = true.
Proof.
  split_and!; try done.
  - intros r. destruct r; in_list.
  - in_list.
  - in_list.
Qed.

(** X21.  Whatever the outcomes of the connection attempt and of the ping,
    start-up ends with the process listening and no rejection unhandled; no
    route is registered twice; the root route is always registered and the
    other eight exactly when the connection attempt was fulfilled; and the
    ping's success message is logged exactly when both were fulfilled. *)
Theorem startup_outcomes (connect ping : outcome unit) :
  listening (main connect ping) = true ∧
  unhandled (main connect ping) = [] ∧
  NoDup (routes (main connect ping)) ∧
  (∀ r, r ∈ routes (main connect ping) ↔ r = GET_root ∨ fulfilled connect) ∧
  (LogPinged ∈ p_console (main connect ping) ↔
   fulfilled connect ∧ fulfilled ping).
Proof.
  destruct connect as [[]|e], ping as [[]|e']; simpl;
    (split_and!;
     [ done | done
     | apply (bool_decide_unpack _); by vm_compute
     | intros r; destruct r; in_list
     | in_list ]).
Qed.

(** X22.  After a start-up whose connection attempt was rejected, every
    request but GET / is answered 404, its handler is never run and the
    state is untouched: the routes under /addCoffee and /users were never
    registered. *)
Theorem no_connection_no_data_routes (e : error) (ping : outcome unit)
    (pk : ObjectId) (req : request) (st : state) :
  req ≠ Get_root →
  serve (main (Rejected e) ping) pk req st
    = (Fulfilled (mkResponse 404 NotFound), st).
Proof.
  intros Hroot. unfold serve. rewrite decide_False; [done|].
  destruct req; in_list.
Qed.

(** X23.  After a start-up whose connection attempt was fulfilled, every
    request reaches its handler, whether the ping succeeded or not. *)
Theorem connection_registers_all_routes (ping : outcome unit)
    (pk : ObjectId) (req : request) (st : state) :
  serve (main (Fulfilled ()) ping) pk req st = handler pk req st.
Proof.
  unfold serve. rewrite decide_True; [done|].
  destruct ping as [[]|e]; destruct req; in_list.
Qed.

(** ** One document at a time *)

Lemma length_delete_bounds {A} (i : nat) (l : list A) :
  (length (delete i l) ≤ length l ∧ length l ≤ S (length (delete i l)))%nat.
Proof.
  revert i. induction l as [|x l IH]; intros [|i]; simpl; try lia.
  specialize (IH i). lia.
Qed.

(** X24.  No request adds or removes more than one document: after any
    request, however it ends, each collection has the length it had, one
    more, or one less. *)
Theorem one_document_at_a_time (pk : ObjectId) (req : request) (st : state)
    (c : coll_name) :
  (length (collection c (handler pk req st).2) ≤ S (length (collection c st)) ∧
   length (collection c st) ≤ S (length (collection c (handler pk req st).2)))%nat.
Proof.
  destruct req, c; unfold_handlers; simpl;
    repeat (case_match; simpl in *; simplify_eq/=);
    rewrite ?length_app, ?length_insert; simpl;
    try lia;
    match goal with
    | |- context [length (delete ?i ?l)] =>
        pose proof (length_delete_bounds i l); lia
    end.
Qed.

(** ** The further properties on the sample store *)

Lemma post_users_then_get_users_witness :
  ∃ v,
    mkResponse 200 (InsertOneResult (VOid oid_a))
      = mkResponse 200 (InsertOneResult v) ∧
    v = doc_id oid_a latte ∧
    get_users (post_users oid_a latte one_each).2 =
      (Fulfilled (mkResponse 200
         (Docs (userCollection one_each ++ [<["_id" := v]> latte]))),
       issue (DbFind user) (post_users oid_a latte one_each).2).
Proof.
  apply (post_users_then_get_users oid_a latte one_each).
  vm_compute. reflexivity.
Defined.

Lemma post_addCoffee_then_get_addCoffee_witness :
  ∃ l,
    get_addCoffee (post_addCoffee oid_a latte one_coffee).2 =
      (Fulfilled (mkResponse 200 (Docs l)),
       issue (DbFind coffee) (post_addCoffee oid_a latte one_coffee).2) ∧
    l = coffeeCollection one_coffee ++ [<["_id" := doc_id oid_a latte]> latte] ∧
    length l = S (length (coffeeCollection one_coffee)).
Proof.
  apply (post_addCoffee_then_get_addCoffee oid_a latte one_coffee _
           (mkResponse 200 (InsertOneResult (VOid oid_a)))).
  vm_compute. reflexivity.
Defined.



Lemma rejected_request_changes_nothing_witness :
  coffeeCollection (post_addCoffee oid_1 latte one_coffee).2
    = coffeeCollection one_coffee ∧
  userCollection (post_addCoffee oid_1 latte one_coffee).2
    = userCollection one_coffee.
Proof.
  apply (rejected_request_changes_nothing oid_1 (Post_addCoffee latte)
           one_coffee _ (MongoServerError 11000%N)).
  vm_compute. reflexivity.
Defined.

Lemma fulfilled_request_answer_witness :
  status (mkResponse 200 (UpdateAck (mkUpdateResult 1 1 0 None))) = 200 ∧
  ∃ r,
    body (mkResponse 200 (UpdateAck (mkUpdateResult 1 1 0 None))) = UpdateAck r ∧
    (matchedCount r + upsertedCount r = 1)%nat ∧
    (modifiedCount r ≤ matchedCount r)%nat.
Proof.
  apply (fulfilled_request_answer oid_a
           (Put_addCoffee_id "111111111111111111111111" mocha_with_price)
           one_coffee
           (handler oid_a
              (Put_addCoffee_id "111111111111111111111111" mocha_with_price)
              one_coffee).2).
  vm_compute. reflexivity.
Defined.

Lemma store_down_rejects_witness :
  ∃ st',
    handler oid_a (Delete_addCoffee_id "111111111111111111111111")
      one_coffee_down = (Rejected MongoNetworkError, st') ∧
    coffeeCollection st' = coffeeCollection one_coffee_down ∧
    userCollection st' = userCollection one_coffee_down ∧
    length (oplog st') = S (length (oplog one_coffee_down)).
Proof.
  apply (store_down_rejects oid_a
           (Delete_addCoffee_id "111111111111111111111111") one_coffee_down).
  - reflexivity.
  - discriminate.
  - intros id [= <-]. vm_compute. eauto.
Defined.

Lemma get_routes_read_only_witness :
  coffeeCollection (handler oid_a (Get_addCoffee_id "latte") one_coffee).2
    = coffeeCollection one_coffee ∧
  userCollection (handler oid_a (Get_addCoffee_id "latte") one_coffee).2
    = userCollection one_coffee ∧
  console (handler oid_a (Get_addCoffee_id "latte") one_coffee).2
    = console one_coffee.
Proof.
  apply (get_routes_read_only oid_a (Get_addCoffee_id "latte") one_coffee).
  reflexivity.
Defined.

Lemma delete_absent_id_witness :
  (¬ has_id (VOid oid_a) (coffeeCollection one_coffee) →
   delete_addCoffee_id "AAAAAAAAAAAAAAAAAAAAAAAA" one_coffee =
     (Fulfilled (mkResponse 200 (DeleteResult 0)),
      issue (DbDeleteOne coffee) one_coffee)) ∧
  (¬ has_id (VOid oid_a) (userCollection one_coffee) →
   delete_users_id "AAAAAAAAAAAAAAAAAAAAAAAA" one_coffee =
     (Fulfilled (mkResponse 200 (DeleteResult 0)),
      issue (DbDeleteOne user) one_coffee)).
Proof.
  apply (delete_absent_id "AAAAAAAAAAAAAAAAAAAAAAAA" oid_a one_coffee);
    reflexivity.
Defined.

Lemma get_addCoffee_id_result_witness :
  ∃ r,
    get_addCoffee_id "111111111111111111111111" one_coffee =
      (Fulfilled (mkResponse 200 (Doc r)), issue (DbFindOne coffee) one_coffee) ∧
    (r = None ↔ ¬ has_id (VOid oid_1) (coffeeCollection one_coffee)) ∧
    (∀ d : doc, r = Some d →
       d ∈ coffeeCollection one_coffee ∧ d !! "_id" = Some (VOid oid_1)).
Proof.
  apply (get_addCoffee_id_result "111111111111111111111111" oid_1 one_coffee);
    reflexivity.
Defined.

Lemma delete_users_id_removes_one_witness :
  ∃ st',
    delete_users_id "111111111111111111111111" one_each
      = (Fulfilled (mkResponse 200 (DeleteResult 1)), st') ∧
    S (length (userCollection st')) = length (userCollection one_each) ∧
    ¬ has_id (VOid oid_1) (userCollection st') ∧
    (∀ d : doc, d ∈ userCollection one_each →
       d !! "_id" ≠ Some (VOid oid_1) → d ∈ userCollection st') ∧
    coffeeCollection st' = coffeeCollection one_each.
Proof.
  apply (delete_users_id_removes_one "111111111111111111111111" oid_1 one_each).
  - reflexivity.
  - apply (bool_decide_unpack _). vm_compute. exact I.
  - apply (bool_decide_unpack _). vm_compute. exact I.
  - reflexivity.
Defined.

Lemma delete_addCoffee_id_twice_witness :
  ∃ st1,
    delete_addCoffee_id "111111111111111111111111" one_coffee
      = (Fulfilled (mkResponse 200 (DeleteResult 1)), st1) ∧
    delete_addCoffee_id "111111111111111111111111" st1
      = (Fulfilled (mkResponse 200 (DeleteResult 0)),
         issue (DbDeleteOne coffee) st1).
Proof.
  apply (delete_addCoffee_id_twice "111111111111111111111111" oid_1 one_coffee).
  - reflexivity.
  - apply (bool_decide_unpack _). vm_compute. exact I.
  - apply (bool_decide_unpack _). vm_compute. exact I.
  - reflexivity.
Defined.

Lemma put_addCoffee_id_twice_witness :
  ∃ ack st1,
    put_addCoffee_id "111111111111111111111111" mocha_with_price one_coffee
      = (Fulfilled ack, st1) ∧
    put_addCoffee_id "111111111111111111111111" mocha_with_price st1 =
      (Fulfilled (mkResponse 200 (UpdateAck (mkUpdateResult 1 0 0 None))),
       issue (DbUpdateOne coffee) st1).
Proof.
  apply (put_addCoffee_id_twice "111111111111111111111111" oid_1
           mocha_with_price one_coffee); reflexivity.
Defined.

Lemma put_then_delete_restores_witness :
  ∃ ack st1 st2,
    put_addCoffee_id "aaaaaaaaaaaaaaaaaaaaaaaa" mocha_with_price one_coffee
      = (Fulfilled ack, st1) ∧
    delete_addCoffee_id "aaaaaaaaaaaaaaaaaaaaaaaa" st1
      = (Fulfilled (mkResponse 200 (DeleteResult 1)), st2) ∧
    coffeeCollection st2 = coffeeCollection one_coffee ∧
    userCollection st2 = userCollection one_coffee.
Proof.
  apply (put_then_delete_restores "aaaaaaaaaaaaaaaaaaaaaaaa" oid_a
           mocha_with_price one_coffee).
  - reflexivity.
  - apply (bool_decide_unpack _). vm_compute. exact I.
  - reflexivity.
Defined.

Lemma post_then_delete_restores_witness :
  ∃ st'',
    delete_addCoffee_id (toHexString oid_a)
        (post_addCoffee oid_a latte one_coffee).2
      = (Fulfilled (mkResponse 200 (DeleteResult 1)), st'') ∧
    coffeeCollection st'' = coffeeCollection one_coffee ∧
    userCollection st'' = userCollection one_coffee.
Proof.
  apply (post_then_delete_restores oid_a latte one_coffee _
           (mkResponse 200 (InsertOneResult (VOid oid_a)))).
  - vm_compute. reflexivity.
  - reflexivity.
Defined.

Lemma put_addCoffee_id_count_witness :
  ∃ r st',
    put_addCoffee_id "aaaaaaaaaaaaaaaaaaaaaaaa" latte one_coffee
      = (Fulfilled (mkResponse 200 (UpdateAck r)), st') ∧
    userCollection st' = userCollection one_coffee ∧
    ((has_id (VOid oid_a) (coffeeCollection one_coffee) ∧
      matchedCount r = 1 ∧ upsertedCount r = 0 ∧ upsertedId r = None ∧
      length (coffeeCollection st') = length (coffeeCollection one_coffee)) ∨
     (¬ has_id (VOid oid_a) (coffeeCollection one_coffee) ∧
      matchedCount r = 0 ∧ upsertedCount r = 1 ∧ upsertedId r = Some oid_a ∧
      length (coffeeCollection st') = S (length (coffeeCollection one_coffee)))).
Proof.
  apply (put_addCoffee_id_count "aaaaaaaaaaaaaaaaaaaaaaaa" oid_a latte
           one_coffee); reflexivity.
Defined.

Lemma request_preserves_unique_ids_witness :
  coll_wf (coffeeCollection
             (handler oid_a (Post_addCoffee mocha_with_price) one_each).2) ∧
  coll_wf (userCollection
             (handler oid_a (Post_addCoffee mocha_with_price) one_each).2).
Proof.
  apply (request_preserves_unique_ids oid_a (Post_addCoffee mocha_with_price)
           one_each).
  - apply (bool_decide_unpack _). vm_compute. exact I.
  - apply (bool_decide_unpack _). vm_compute. exact I.
Defined.

Lemma no_connection_no_data_routes_witness :
  serve (main (Rejected MongoNetworkError) (Fulfilled ())) oid_a
      Get_addCoffee one_coffee
    = (Fulfilled (mkResponse 404 NotFound), one_coffee).
Proof.
  apply (no_connection_no_data_routes MongoNetworkError (Fulfilled ()) oid_a
           Get_addCoffee one_coffee).
  discriminate.
Defined.
